(** * Gif-to-Drawaria-Json: the frame encoder and the frame aggregator

    A shallow embedding of [gif_to_drawaria_json.py]:

    - [rgb_to_hex], the colour codec;
    - [get_drawing_commands_from_image], which normalises one frame
      (RGBA copy, thumbnail, paste on a transparent canvas) and scans the
      canvas row by row into horizontal line commands;
    - [gif_to_drawaria_json_processor], which drives the encoder over the
      frames of a GIF and assembles the dictionary handed to [json.dump].

    Python integers are [Z].  The true division [a / b] of two integers is
    the exact rational [a / b] in [Q]; the rounding of the quotient to a
    binary64 float is not modelled.  PIL image objects live in a store
    indexed by references, because [thumbnail] and [paste] mutate their
    receiver and [ImageSequence.Iterator] yields one and the same object
    for every frame. *)

From Stdlib Require Import ZArith QArith Qround Qabs String Ascii List Sorted Lia.
From stdpp Require Import base option gmap.

Import ListNotations.
Local Open Scope Z_scope.

(** ** Python primitives *)

(** [range(start, stop, step)] for a non-zero [step]; the constructor
    raises [ValueError] when [step] is zero, which callers model
    themselves. *)
Definition range_len (start stop step : Z) : nat :=
  if 0 <? step then Z.to_nat ((stop - start + step - 1) / step)
  else Z.to_nat ((start - stop - step - 1) / (- step)).

Definition py_range (start stop step : Z) : list Z :=
  List.map (fun i => start + Z.of_nat i * step)
           (List.seq 0 (range_len start stop step)).

(** [a / b] on integers (true division), as an exact rational. *)
Definition truediv (a b : Z) : Q := (inject_Z a / inject_Z b)%Q.

(** ** Colour codec *)

Definition hex_digit (d : Z) : ascii :=
  if d <? 10 then ascii_of_nat (48 + Z.to_nat d)
  else ascii_of_nat (87 + Z.to_nat d).

Fixpoint hex_digits (fuel : nat) (n : Z) (acc : string) : string :=
  match fuel with
  | O => String (hex_digit (n mod 16)) acc
  | S fuel' =>
      if n <? 16 then String (hex_digit n) acc
      else hex_digits fuel' (n / 16) (String (hex_digit (n mod 16)) acc)
  end.

(** ['{:02x}'.format(n)]: lower-case hexadecimal, zero-padded to two
    characters, the sign counted in the width. *)
Definition format_02x (n : Z) : string :=
  if n <? 0 then
    String "-"%char (hex_digits (Z.to_nat (Z.log2 (- n))) (- n) EmptyString)
  else if n <? 16 then String "0"%char (String (hex_digit n) EmptyString)
  else hex_digits (Z.to_nat (Z.log2 n)) n EmptyString.

Definition upper_ascii (c : ascii) : ascii :=
  let n := nat_of_ascii c in
  if (Nat.leb 97 n && Nat.leb n 122)%bool then ascii_of_nat (n - 32)%nat else c.

Fixpoint upper (s : string) : string :=
  match s with
  | EmptyString => EmptyString
  | String c s' => String (upper_ascii c) (upper s')
  end.

Definition rgb_to_hex (rgb_color : Z * Z * Z) : string :=
  let '(r, g, b) := rgb_color in
  upper (String "#"%char (format_02x r ++ format_02x g ++ format_02x b)).

(** ** Data model *)

(** One RGBA pixel as [pixels[x, y]] returns it. *)
Definition Sample : Type := (Z * Z * Z * Z)%type.

Definition alpha (s : Sample) : Z := let '(_, _, _, a) := s in a.

(** A PIL image in mode RGBA: its [size] and its pixel access object. *)
Record Image : Type := mkImage {
  width : Z;
  height : Z;
  load : Z -> Z -> Sample
}.

(** One drawing command, the dictionary appended to [commands].  The
    colour is the value of [current_line_color], which Python initialises
    to [None]. *)
Record Command : Type := mkCommand {
  start_norm : Q * Q;
  end_norm : Q * Q;
  color : option string;
  thickness : Z
}.

(** ** The scanline loops of [get_drawing_commands_from_image] *)

Section Scanline.

Variable pixels : Z -> Z -> Sample.
Variables img_width img_height : Z.
Variables offset_x offset_y : Z.
Variable output_size : Z * Z.
Variables brush_thickness quality_factor transparency_threshold : Z.

(** The dictionary built at each of the three [commands.append] sites;
    they differ only in the end column [end_x]. *)
Definition line_command (start_x end_x y : Z) (c : option string) : Command :=
  {| start_norm := (truediv (start_x + offset_x) (fst output_size),
                    truediv (y + offset_y) (snd output_size));
     end_norm := (truediv (end_x + offset_x) (fst output_size),
                  truediv (y + offset_y) (snd output_size));
     color := c;
     thickness := brush_thickness |}.

(** The loop state: [current_line_start_x], [current_line_color] and
    the list [commands]. *)
Definition ScanState : Type := (Z * option string * list Command)%type.

Definition color_differs (hex_color : string) (c : option string) : bool :=
  match c with
  | Some s => negb (String.eqb hex_color s)
  | None => true
  end.

(** Body of [for x in range(0, width, quality_factor)]. *)
Definition scan_pixel (y : Z) (st : ScanState) (x : Z) : ScanState :=
  let '(current_line_start_x, current_line_color, commands) := st in
  let '(r, g, b, a) := pixels x y in
  if transparency_threshold <? a then
    let hex_color := rgb_to_hex (r, g, b) in
    if current_line_start_x =? -1 then
      (x, Some hex_color, commands)
    else if color_differs hex_color current_line_color then
      (x, Some hex_color,
       commands ++ [line_command current_line_start_x (x - 1) y current_line_color])
    else st
  else
    if negb (current_line_start_x =? -1) then
      (-1, None,
       commands ++ [line_command current_line_start_x (x - 1) y current_line_color])
    else st.

(** The [if current_line_start_x != -1] after the inner loop. *)
Definition close_row (y : Z) (st : ScanState) : list Command :=
  let '(current_line_start_x, current_line_color, commands) := st in
  if negb (current_line_start_x =? -1) then
    commands ++ [line_command current_line_start_x (img_width - 1) y current_line_color]
  else commands.

(** Body of [for y in range(0, height, quality_factor)]. *)
Definition scan_row (commands : list Command) (y : Z) : list Command :=
  close_row y
    (fold_left (scan_pixel y) (py_range 0 img_width quality_factor)
               (-1, None, commands)).

(** Lines 44-91, for a non-zero [quality_factor]. *)
Definition scan_canvas : list Command :=
  fold_left scan_row (py_range 0 img_height quality_factor) [].

(** *** What the scan emits *)

Definition visited_columns : list Z := py_range 0 img_width quality_factor.
Definition visited_rows : list Z := py_range 0 img_height quality_factor.

(** The colour string of the sample at [(x, y)] when its alpha passes
    the test of line 53, [None] otherwise. *)
Definition opaque_color (x y : Z) : option string :=
  let '(r, g, b, a) := pixels x y in
  if transparency_threshold <? a then Some (rgb_to_hex (r, g, b)) else None.

(** The commands row [y] can contribute.  A run starts at a visited
    column [start_x]; every visited column of the run carries the
    colour [c].  It is closed either at a visited column [x] that does
    not carry [c], with end column [x - 1], or after the loop, with end
    column [img_width - 1]. *)
Inductive emitted (y : Z) : Command -> Prop :=
| emitted_break (start_x x : Z) (c : string) :
    In start_x visited_columns ->
    In x visited_columns ->
    start_x < x ->
    (forall x', In x' visited_columns -> start_x <= x' < x ->
                opaque_color x' y = Some c) ->
    opaque_color x y <> Some c ->
    emitted y (line_command start_x (x - 1) y (Some c))
| emitted_row_end (start_x : Z) (c : string) :
    In start_x visited_columns ->
    (forall x', In x' visited_columns -> start_x <= x' ->
                opaque_color x' y = Some c) ->
    emitted y (line_command start_x (img_width - 1) y (Some c)).

(** The run state between two iterations, [seen] being the columns
    already visited: no run is open, or the open run started at a seen
    column and every seen column from there on carries its colour. *)
Definition run_invariant (y : Z) (seen : list Z) (st : ScanState) : Prop :=
  let '(start_x, c, _) := st in
  (start_x = -1 /\ c = None) \/
  (exists s, c = Some s /\ In start_x seen /\
             forall x', In x' seen -> start_x <= x' ->
                        opaque_color x' y = Some s).

End Scanline.

(** ** The object store *)

(** References to PIL image objects. *)
Abbreviation Store := (gmap nat Image).

(** [ValueError] is Python's; [DanglingRef] is not a Python exception: it
    marks the use of a reference the store does not hold, which no Python
    program can have. *)
Inductive exn : Type := ValueError | DanglingRef.

(** A computation returns a value or raises; either way it leaves a
    store. *)
Inductive outcome (A : Type) : Type :=
| Done (a : A) (s : Store)
| Raised (e : exn) (s : Store).
Arguments Done {A} a s.
Arguments Raised {A} e s.

Definition M (A : Type) : Type := Store -> outcome A.

Definition ret {A : Type} (a : A) : M A := fun s => Done a s.

Definition bind {A B : Type} (c : M A) (k : A -> M B) : M B :=
  fun s => match c s with
           | Done a s' => k a s'
           | Raised e s' => Raised e s'
           end.

Definition raise {A : Type} (e : exn) : M A := fun s => Raised e s.

Notation "x <- c ;; k" := (bind c (fun x => k))
  (at level 100, c at next level, right associativity).
Notation "c ;;; k" := (bind c (fun _ => k))
  (at level 100, right associativity).

(** A new object, at a reference the store does not use yet. *)
Definition alloc (im : Image) : M nat :=
  fun s => let r := fresh (dom s) in Done r (<[r := im]> s).

Definition deref (r : nat) : M Image :=
  fun s => match s !! r with
           | Some im => Done im s
           | None => Raised DanglingRef s
           end.

(** In-place update of the object at [r]. *)
Definition mutate (r : nat) (f : Image -> Image) : M unit :=
  fun s => match s !! r with
           | Some im => Done tt (<[r := f im]> s)
           | None => Raised DanglingRef s
           end.

(** ** The PIL operations the encoder calls

    [convert], [thumbnail], [Image.new], [paste] and [load] belong to
    Pillow, the library the program imports; what follows embeds the part
    of their behaviour the program depends on.  [Image.thumbnail] is, in
    the Pillow releases that have [Image.Resampling] (9.1 and later):
<<
    def thumbnail(self, size, resample=..., reducing_gap=2.0):
        provided_size = tuple(map(math.floor, size))
        def preserve_aspect_ratio():
            def round_aspect(number, key):
                return max(min(math.floor(number), math.ceil(number), key=key), 1)
            x, y = provided_size
            if x >= self.width and y >= self.height:
                return None
            aspect = self.width / self.height
            if x / y >= aspect:
                x = round_aspect(y * aspect, key=lambda n: abs(aspect - n / y))
            else:
                y = round_aspect(
                    x / aspect, key=lambda n: 0 if n == 0 else abs(aspect - x / n))
            return x, y
        ...
        final_size = preserve_aspect_ratio()
        if final_size is None:
            return
        ...
        if self.size != final_size:
            im = self.resize(final_size, resample, ...)
            self.im = im.im; self._size = final_size; ...
>>
    The quotients are exact rationals here, binary64 floats in Pillow:
    when the two candidates of [round_aspect] have equal or nearly equal
    keys the rounded keys can order them the other way, so the embedding
    fixes the free dimension only as the floor or the ceiling of the
    proportional size.  It is the embedding for images and requested
    sizes of positive width and height: with a requested height or an
    image height of 0 Pillow's [x / y] or [self.width / self.height]
    raises [ZeroDivisionError], which is not represented. *)

Section Pillow.

(** The resampling filter ([Image.Resampling.LANCZOS]): the pixel at
    [(x, y)] of the image resized to [w] by [h].  Its arithmetic is
    Pillow's and stays abstract. *)
Variable resample : Image -> Z -> Z -> Z -> Z -> Sample.

Definition resize (im : Image) (w h : Z) : Image :=
  {| width := w; height := h; load := resample im w h |}.

(** [round_aspect] of [Image.thumbnail]:
    [max(min(floor(number), ceil(number), key=key), 1)].  Python's [min]
    keeps its first argument on a tie. *)
Definition round_aspect (number : Q) (key : Z -> Q) : Z :=
  let lo := Qfloor number in
  let hi := Qceiling number in
  Z.max (if Qle_bool (key lo) (key hi) then lo else hi) 1.

(** [preserve_aspect_ratio] of [Image.thumbnail]: [None] when the
    requested size is at least the image's in both dimensions. *)
Definition preserve_aspect_ratio (w h : Z) (size : Z * Z) : option (Z * Z) :=
  let '(x, y) := size in
  if ((w <=? x) && (h <=? y))%bool then None
  else
    let aspect := truediv w h in
    if Qle_bool aspect (truediv x y) then
      Some (round_aspect (inject_Z y * aspect)
              (fun n => Qabs (aspect - truediv n y)), y)
    else
      Some (x, round_aspect (inject_Z x / aspect)
                 (fun n => if n =? 0 then 0%Q
                           else Qabs (aspect - truediv x n))).

(** The image [im.thumbnail(size, resample)] leaves in [im]. *)
Definition thumbnail_image (im : Image) (size : Z * Z) : Image :=
  match preserve_aspect_ratio (width im) (height im) size with
  | None => im
  | Some (w', h') =>
      if ((w' =? width im) && (h' =? height im))%bool then im
      else resize im w' h'
  end.

(** [Image.new("RGBA", size, fill)]. *)
Definition new_image (size : Z * Z) (fill : Sample) : Image :=
  {| width := fst size; height := snd size; load := fun _ _ => fill |}.

(** The image [dst.paste(src, (ox, oy))] leaves in [dst]: no mask, the
    four channels are copied. *)
Definition paste_image (src : Image) (box : Z * Z) (dst : Image) : Image :=
  {| width := width dst;
     height := height dst;
     load := fun x y =>
       if ((fst box <=? x) && (x <? fst box + width src) &&
           (snd box <=? y) && (y <? snd box + height src))%bool
       then load src (x - fst box) (y - snd box)
       else load dst x y |}.

(** [im.convert("RGBA")]: a new object; the argument is only read.  The
    store holds every image by its RGBA samples, so the copy has the
    same samples. *)
Definition convert_RGBA (r : nat) : M nat :=
  im <- deref r ;; alloc im.

Definition thumbnail (r : nat) (size : Z * Z) : M unit :=
  mutate r (fun im => thumbnail_image im size).

Definition Image_new (size : Z * Z) (fill : Sample) : M nat :=
  alloc (new_image size fill).

Definition paste (dst src : nat) (box : Z * Z) : M unit :=
  im <- deref src ;; mutate dst (paste_image im box).

(** ** [get_drawing_commands_from_image] *)

(** Lines 29-39: the canvas reference and the two offsets. *)
Definition normalize_frame (image_input : nat) (output_size : Z * Z)
  : M (nat * Z * Z) :=
  img <- convert_RGBA image_input ;;
  thumbnail img output_size ;;;
  new_img <- Image_new output_size (255, 255, 255, 0) ;;
  scaled <- deref img ;;
  let offset_x := (fst output_size - width scaled) / 2 in
  let offset_y := (snd output_size - height scaled) / 2 in
  paste new_img img (offset_x, offset_y) ;;;
  ret (new_img, offset_x, offset_y).

Definition get_drawing_commands_from_image (image_input : nat)
    (output_size : Z * Z)
    (brush_thickness quality_factor transparency_threshold : Z)
  : M (list Command) :=
  normalized <- normalize_frame image_input output_size ;;
  let '(img, offset_x, offset_y) := normalized in
  canvas <- deref img ;;
  if quality_factor =? 0 then raise ValueError
  else ret (scan_canvas (load canvas) (width canvas) (height canvas)
              offset_x offset_y output_size
              brush_thickness quality_factor transparency_threshold).

(** *** The encoder as a function of the frame's contents *)

Definition transparent_white : Sample := (255, 255, 255, 0).

(** Lines 36-37, for the frame as [thumbnail] left it. *)
Definition frame_offsets (scaled : Image) (output_size : Z * Z) : Z * Z :=
  ((fst output_size - width scaled) / 2,
   (snd output_size - height scaled) / 2).

(** The canvas [new_img] after the paste. *)
Definition frame_canvas (im : Image) (output_size : Z * Z) : Image :=
  let scaled := thumbnail_image im output_size in
  paste_image scaled (frame_offsets scaled output_size)
    (new_image output_size transparent_white).

(** The commands of a frame with contents [im]. *)
Definition frame_commands (im : Image) (output_size : Z * Z)
    (brush_thickness quality_factor transparency_threshold : Z)
  : list Command :=
  let scaled := thumbnail_image im output_size in
  let canvas := frame_canvas im output_size in
  scan_canvas (load canvas) (width canvas) (height canvas)
    (fst (frame_offsets scaled output_size))
    (snd (frame_offsets scaled output_size))
    output_size brush_thickness quality_factor transparency_threshold.

(** ** [gif_to_drawaria_json_processor] *)

(** One frame of the file: its image and the delay it declares, in
    milliseconds.  While [gif] is at a frame, [gif.info] holds the key
    ['duration'] with that frame's delay, or lacks the key when the frame
    declares none. *)
Record GifFrame : Type := mkGifFrame {
  frame_image : Image;
  frame_duration : option Z
}.

(** What the decoder reads from the file: the frames in order. *)
Record GifFile : Type := mkGifFile {
  gif_frames : list GifFrame
}.

(** The delay in [gif.info] right after [Image.open]: the first
    frame's. *)
Definition declared_delay (file : GifFile) : option Z :=
  match gif_frames file with
  | first :: _ => frame_duration first
  | [] => None
  end.

(** Every frame has a width and a height of at least 1. *)
Definition positive_frames (all : list GifFrame) : Prop :=
  Forall (fun f => 1 <= width (frame_image f) /\ 1 <= height (frame_image f))
         all.

Record ProcessingOptions : Type := mkProcessingOptions {
  po_brush_thickness : Z;
  po_quality_factor : Z;
  po_transparency_threshold : Z;
  max_frames_processed : option Z
}.

Record Metadata : Type := mkMetadata {
  md_width : Z;
  md_height : Z;
  original_fps : Q;
  frame_count : Z;
  total_commands_generated : Z;
  processing_options : ProcessingOptions
}.

(** The dictionary [output_data]. *)
Record OutputData : Type := mkOutputData {
  frames : list (list Command);
  metadata : Metadata
}.

(** [Image.open]: [None] when it raises, which the caller catches.  A
    file without a frame is not an image.  The value holds the new
    object, positioned at the first frame, and the file it reads. *)
Definition Image_open (source : option GifFile) : M (option (nat * GifFile)) :=
  match source with
  | Some file =>
      match gif_frames file with
      | first :: _ =>
          gif <- alloc (frame_image first) ;; ret (Some (gif, file))
      | [] => ret None
      end
  | None => ret None
  end.

(** [gif.seek] to [frame], as [ImageSequence.Iterator] calls it: the
    object takes the frame's pixels and [gif.info] the frame's delay.
    The value is the delay [gif.info] holds afterwards. *)
Definition seek (gif : nat) (frame : GifFrame) : M (option Z) :=
  mutate gif (fun _ => frame_image frame) ;;; ret (frame_duration frame).

(** Lines 108 and 123-127, [duration] being [gif.info.get('duration')].
    A zero duration raises [ZeroDivisionError] inside the [try], and the
    bare [except] leaves the initial value. *)
Definition fps_of_info (duration : option Z) : Q :=
  match duration with
  | Some d => if d =? 0 then 10%Q else truediv 1000 d
  | None => 10%Q
  end.

(** [frames_data], [total_commands] and [frame_count]. *)
Definition Totals : Type := (list (list Command) * Z * Z)%type.

Section Loop.

Variable gif : nat.
Variable output_size : Z * Z.
Variables brush_thickness quality_factor transparency_threshold : Z.
Variable max_frames : option Z.

Definition cap_reached (i : Z) : bool :=
  match max_frames with
  | Some m => m <=? i
  | None => false
  end.

(** The [for i, frame in enumerate(ImageSequence.Iterator(gif))]
    loop over the frames not yet visited.  The iterator seeks [gif]
    to the next frame and yields [gif] itself, before the body tests
    the cap.  [info] is the delay [gif.info] holds; the value pairs the
    delay it holds after the loop with the counters. *)
Fixpoint process_frames (pending : list GifFrame) (i : Z) (info : option Z)
    (acc : Totals) : M (option Z * Totals) :=
  match pending with
  | [] => ret (info, acc)
  | next :: rest =>
      info' <- seek gif next ;;
      if cap_reached i then ret (info', acc)
      else
        commands <- get_drawing_commands_from_image gif output_size
                      brush_thickness quality_factor
                      transparency_threshold ;;
        let '(frames_data, total_commands, count) := acc in
        process_frames rest (i + 1) info'
          (frames_data ++ [commands],
           total_commands + Z.of_nat (length commands),
           count + 1)
  end.

(** The frames the loop hands to the encoder. *)
Fixpoint frames_taken (pending : list GifFrame) (i : Z) : list GifFrame :=
  match pending with
  | [] => []
  | next :: rest =>
      if cap_reached i then [] else next :: frames_taken rest (i + 1)
  end.

End Loop.

(** The counters agree with the list of per-frame command lists. *)
Definition totals_consistent (acc : Totals) : Prop :=
  let '(frames_data, total_commands, count) := acc in
  count = Z.of_nat (length frames_data) /\
  total_commands = Z.of_nat (list_sum (List.map (@length Command) frames_data)).

(** The value is [Some output_data], the dictionary given to
    [json.dump], or [None] when the function returns at line 121.  The
    frame rate is computed from [gif.info] before the loop (lines
    123-127); the loop moves [gif], and its [info], from frame to
    frame. *)
Definition gif_to_drawaria_json_processor (source : option GifFile)
    (output_size : Z * Z)
    (brush_thickness quality_factor transparency_threshold : Z)
    (max_frames : option Z)
  : M (option OutputData) :=
  opened <- Image_open source ;;
  match opened with
  | None => ret None
  | Some (gif, file) =>
      let info := declared_delay file in
      let fps := fps_of_info info in
      result <- process_frames gif output_size brush_thickness
                  quality_factor transparency_threshold max_frames
                  (gif_frames file) 0 info ([], 0, 0) ;;
      let '(_, (frames_data, total_commands, count)) := result in
      ret (Some
        {| frames := frames_data;
           metadata :=
             {| md_width := fst output_size;
                md_height := snd output_size;
                original_fps := fps;
                frame_count := count;
                total_commands_generated := total_commands;
                processing_options :=
                  {| po_brush_thickness := brush_thickness;
                     po_quality_factor := quality_factor;
                     po_transparency_threshold := transparency_threshold;
                     max_frames_processed := max_frames |} |} |})
  end.

End Pillow.

(** The value a computation returns, when it returns. *)
Definition returned {A : Type} (o : outcome A) : option A :=
  match o with
  | Done a _ => Some a
  | Raised _ _ => None
  end.

(** The store a computation leaves. *)
Definition final_store {A : Type} (o : outcome A) : Store :=
  match o with
  | Done _ s => s
  | Raised _ s => s
  end.

(** ** Fixtures *)

Definition red : Sample := (255, 0, 0, 255).
Definition blue : Sample := (0, 0, 255, 255).

(** A one-colour image. *)
Definition solid (w h : Z) (c : Sample) : Image := new_image (w, h) c.

(** Nearest-neighbour sampling, one possible resampling filter. *)
Definition nearest (im : Image) (w h x y : Z) : Sample :=
  load im (x * width im / w) (y * height im / h).

(** A [w] by [h] image whose columns left of [k] are red and whose other
    columns are fully transparent. *)
Definition left_red (w h k : Z) : Image :=
  {| width := w; height := h;
     load := fun x _ => if x <? k then red else transparent_white |}.

(** Two red samples followed by blue ones. *)
Definition red_red_blue (x y : Z) : Sample := if x <? 2 then red else blue.

(** The command of a red run from column [start_x] to column [end_x] of
    row 0 on a canvas of width [w] and height 1, with offset [offset_x]
    and brush thickness 2. *)
Definition red_run (w offset_x start_x end_x : Z) : Command :=
  line_command offset_x 0 (w, 1) 2 start_x end_x 0 (Some "#FF0000"%string).

(** A five-frame source whose first frame declares a delay of 100 ms and
    whose other frames declare 40 ms. *)
Definition five_frames : GifFile :=
  {| gif_frames :=
       [mkGifFrame (solid 2 1 red) (Some 100);
        mkGifFrame (solid 2 1 blue) (Some 40);
        mkGifFrame (solid 2 1 red) (Some 40);
        mkGifFrame (solid 2 1 blue) (Some 40);
        mkGifFrame (solid 2 1 red) (Some 40)] |}.

(** An image that is transparent inside its bounds and red at every
    address outside them. *)
Definition clear_inside (w h : Z) : Image :=
  {| width := w; height := h;
     load := fun x y =>
       if ((0 <=? x) && (x <? w) && (0 <=? y) && (y <? h))%bool
       then transparent_white else red |}.

(** ** The specification's wording, for comparison *)

(** The scaled size as the specification words it: the scale factor is
    the smaller of [W / w] and [H / h], and the scaled frame measures
    the floor of [w] times the factor by the floor of [h] times the
    factor. *)
Definition spec_scale_factor (w h : Z) (target : Z * Z) : Q :=
  let sw := truediv (fst target) w in
  let sh := truediv (snd target) h in
  if Qle_bool sw sh then sw else sh.

Definition spec_scaled_size (w h : Z) (target : Z * Z) : Z * Z :=
  (Qfloor (inject_Z w * spec_scale_factor w h target),
   Qfloor (inject_Z h * spec_scale_factor w h target)).

(** The end of a command as the specification words it: the end x is a
    visited column divided by the canvas width. *)
Definition ends_on_visited_column (canvas_width quality_factor : Z)
    (cmd : Command) : Prop :=
  exists x, In x (visited_columns canvas_width quality_factor) /\
            (fst (end_norm cmd) == truediv x canvas_width)%Q.

(** The coordinates of a command as the specification words them: canvas
    pixel addresses divided by the canvas size, no offset added. *)
Definition spec_line_command (canvas_size : Z * Z) (brush_thickness : Z)
    (start_x end_x y : Z) (c : option string) : Command :=
  {| start_norm := (truediv start_x (fst canvas_size),
                    truediv y (snd canvas_size));
     end_norm := (truediv end_x (fst canvas_size),
                  truediv y (snd canvas_size));
     color := c;
     thickness := brush_thickness |}.

(** ** Runs of a row *)

(** A run: its first column, its last column and its colour. *)
Definition Run : Type := (Z * Z * string)%type.
Definition run_start (r : Run) : Z := fst (fst r).
Definition run_end (r : Run) : Z := snd (fst r).
Definition run_color (r : Run) : string := snd r.

(** The command the scan appends for run [r] of row [y]. *)
Definition run_command (offset_x offset_y : Z) (output_size : Z * Z)
    (brush_thickness y : Z) (r : Run) : Command :=
  line_command offset_x offset_y output_size brush_thickness
    (run_start r) (run_end r) y (Some (run_color r)).

(** 1 while a run is open, 0 otherwise. *)
Definition open_runs (current_line_start_x : Z) : nat :=
  if current_line_start_x =? -1 then 0%nat else 1%nat.

Section RunDecomposition.

Variable pixels : Z -> Z -> Sample.
Variables img_width quality_factor transparency_threshold : Z.

(** Run [r] of row [y] starts at a visited column, lies inside the row,
    holds samples of its colour only, and cannot be extended to the
    right: it reaches the last pixel column, or the column after it is a
    visited column that does not carry its colour. *)
Definition run_sound (y : Z) (r : Run) : Prop :=
  In (run_start r) (visited_columns img_width quality_factor) /\
  run_start r <= run_end r <= img_width - 1 /\
  (forall x, In x (visited_columns img_width quality_factor) ->
             run_start r <= x <= run_end r ->
             opaque_color pixels transparency_threshold x y
             = Some (run_color r)) /\
  (run_end r = img_width - 1 \/
   (In (run_end r + 1) (visited_columns img_width quality_factor) /\
    opaque_color pixels transparency_threshold (run_end r + 1) y
    <> Some (run_color r))).

(** Each run ends before the next one starts. *)
Definition runs_separated (runs : list Run) : Prop :=
  StronglySorted (fun r1 r2 => run_end r1 < run_start r2) runs.

(** Every sample of [columns] that passes the alpha test lies in a run of
    its colour. *)
Definition runs_cover (y : Z) (columns : list Z) (runs : list Run) : Prop :=
  forall (x : Z) (c : string),
    In x columns ->
    opaque_color pixels transparency_threshold x y = Some c ->
    exists r, In r runs /\ run_start r <= x <= run_end r /\ run_color r = c.

(** The closed runs between two iterations: [seen] are the columns
    already visited, [rest] the columns to come. *)
Definition runs_invariant (y : Z) (seen rest : list Z) (runs : list Run)
    (current_line_start_x : Z) (current_line_color : option string) : Prop :=
  runs_separated runs /\
  Forall (run_sound y) runs /\
  (forall r x, In r runs -> In x rest -> run_end r < x) /\
  (current_line_start_x <> -1 ->
   forall r, In r runs -> run_end r < current_line_start_x) /\
  (forall (x : Z) (c : string),
     In x seen ->
     opaque_color pixels transparency_threshold x y = Some c ->
     (exists r, In r runs /\ run_start r <= x <= run_end r /\
                run_color r = c) \/
     (current_line_start_x <> -1 /\ current_line_start_x <= x /\
      current_line_color = Some c)).

End RunDecomposition.

(** ** The values [start_conversion_thread] hands to the processor *)

(** Lines 301-303: the entry of the frame cap, where 0 stands for no
    cap. *)
Definition gui_max_frames (entry : Z) : option Z :=
  if entry =? 0 then None else Some entry.

(** Line 316: the name of the output file,
    [os.path.basename(gif_local_path).rsplit('.', 1)[0]
     + "_drawaria_animation.json"]. *)

Fixpoint contains_char (ch : ascii) (s : string) : bool :=
  match s with
  | EmptyString => false
  | String c s' => (Ascii.eqb c ch || contains_char ch s')%bool
  end.

(** [s[s.rfind(ch) + 1:]]: what follows the last [ch], the whole string
    when [ch] does not occur. *)
Fixpoint after_last (ch : ascii) (s : string) : string :=
  match s with
  | EmptyString => EmptyString
  | String c s' =>
      if contains_char ch s' then after_last ch s'
      else if Ascii.eqb c ch then s' else s
  end.

(** [s.rsplit(ch, 1)[0]]: what precedes the last [ch], the whole string
    when [ch] does not occur. *)
Fixpoint before_last (ch : ascii) (s : string) : string :=
  match s with
  | EmptyString => EmptyString
  | String c s' =>
      if contains_char ch s' then String c (before_last ch s')
      else if Ascii.eqb c ch then EmptyString else s
  end.

(** [os.path.basename] of [posixpath]. *)
Definition basename (p : string) : string := after_last "/"%char p.

Definition output_filename_for (gif_local_path : string) : string :=
  (before_last "."%char (basename gif_local_path)
   ++ "_drawaria_animation.json")%string.

(** * Facts *)

(** ** [range] *)

Lemma py_range_In (stop step x : Z) :
  1 <= step ->
  In x (py_range 0 stop step) <-> 0 <= x < stop /\ x mod step = 0.
Proof.
  intros Hstep. unfold py_range, range_len.
  assert (Hpos : (0 <? step) = true) by (apply Z.ltb_lt; lia).
  rewrite Hpos, in_map_iff. split.
  - intros (i & <- & Hi). apply in_seq in Hi. simpl in Hi.
    destruct Hi as [_ Hi].
    assert (Hlt : Z.of_nat i < (stop - 0 + step - 1) / step) by lia.
    assert (Z.of_nat i + 1 <= (stop - 0 + step - 1) / step) by lia.
    assert (step * (Z.of_nat i + 1) <= stop - 0 + step - 1).
    { etransitivity; [apply Z.mul_le_mono_nonneg_l; [lia | eassumption]|].
      apply Z.mul_div_le. lia. }
    split; [nia|]. rewrite Z.add_0_l. apply Z.mod_mul. lia.
  - intros [[H0 Hstop] Hmod].
    exists (Z.to_nat (x / step)).
    assert (Hx : x = step * (x / step)).
    { pose proof (Z.div_mod x step ltac:(lia)). lia. }
    assert (0 <= x / step) by (apply Z.div_pos; lia).
    split; [rewrite Z2Nat.id by lia; lia|].
    apply in_seq. simpl. split; [lia|].
    assert (x / step + 1 <= (stop - 0 + step - 1) / step)
      by (apply Z.div_le_lower_bound; lia).
    lia.
Qed.

Lemma map_seq_sorted (start step : Z) (n a : nat) :
  1 <= step ->
  StronglySorted Z.lt
    (List.map (fun i => start + Z.of_nat i * step) (List.seq a n)).
Proof.
  intros Hstep. revert a.
  induction n as [|n IH]; intros a; simpl; constructor.
  - apply IH.
  - apply List.Forall_forall. intros z Hz.
    apply in_map_iff in Hz. destruct Hz as (i & <- & Hi).
    apply in_seq in Hi. nia.
Qed.

Lemma py_range_sorted (start stop step : Z) :
  1 <= step -> StronglySorted Z.lt (py_range start stop step).
Proof. intros Hstep. unfold py_range. now apply map_seq_sorted. Qed.

(** Around an element of an increasing list: smaller before, larger
    after. *)
Lemma sorted_split (l1 l2 : list Z) (x : Z) :
  StronglySorted Z.lt (l1 ++ x :: l2) ->
  Forall (fun d => d < x) l1 /\ Forall (fun r => x < r) l2.
Proof.
  induction l1 as [|d l1 IH]; simpl; intros Hs.
  - apply StronglySorted_inv in Hs. destruct Hs as [_ Hall]. split; auto.
  - apply StronglySorted_inv in Hs. destruct Hs as [Hs Hall].
    destruct (IH Hs) as [H1 H2]. split; [|exact H2].
    constructor; [|exact H1].
    rewrite List.Forall_forall in Hall. apply Hall.
    apply in_or_app. right. now left.
Qed.

(** ** The scan of one row *)

Lemma visited_nonneg (img_width quality_factor x : Z) :
  1 <= quality_factor ->
  In x (visited_columns img_width quality_factor) -> 0 <= x < img_width.
Proof.
  intros Hq Hx. apply py_range_In in Hx; [tauto | assumption].
Qed.

Lemma color_differs_spec (h c : string) :
  color_differs h (Some c) = true <-> h <> c.
Proof.
  simpl. rewrite Bool.negb_true_iff. apply String.eqb_neq.
Qed.

Section ScanlineFacts.

Variable pixels : Z -> Z -> Sample.
Variables img_width img_height : Z.
Variables offset_x offset_y : Z.
Variable output_size : Z * Z.
Variables brush_thickness quality_factor transparency_threshold : Z.

Local Abbreviation xs := (visited_columns img_width quality_factor).
Local Abbreviation ys := (visited_rows img_height quality_factor).
Local Abbreviation colour := (opaque_color pixels transparency_threshold).
Local Abbreviation step :=
  (scan_pixel pixels offset_x offset_y output_size brush_thickness
     transparency_threshold).
Local Abbreviation emits :=
  (emitted pixels img_width offset_x offset_y output_size brush_thickness
     quality_factor transparency_threshold).
Local Abbreviation command :=
  (line_command offset_x offset_y output_size brush_thickness).
Local Abbreviation run_inv := (run_invariant pixels transparency_threshold).

(** One iteration keeps the invariant and appends emitted commands
    only. *)
Lemma scan_pixel_step (y x : Z) (seen rest : list Z)
    (st : Z * option string * list Command) :
  1 <= quality_factor ->
  seen ++ x :: rest = xs ->
  run_inv y seen st ->
  run_inv y (seen ++ [x]) (step y st x) /\
  exists new, snd (step y st x) = snd st ++ new /\ Forall (emits y) new.
Proof.
  intros Hq Hxs Hinv.
  pose proof (py_range_sorted 0 img_width quality_factor Hq) as Hsorted.
  fold xs in Hsorted. rewrite <- Hxs in Hsorted.
  destruct (sorted_split _ _ _ Hsorted) as [Hbefore Hafter].
  rewrite List.Forall_forall in Hbefore, Hafter.
  assert (Hx : In x xs) by (rewrite <- Hxs; apply in_or_app; right; now left).
  assert (Hseen : forall z, In z seen -> In z xs)
    by (intros z Hz; rewrite <- Hxs; apply in_or_app; now left).
  assert (Hbetween : forall s z, In s seen -> In z xs -> s <= z < x -> In z seen).
  { intros s z _ Hz Hlt. rewrite <- Hxs in Hz.
    apply in_app_or in Hz. destruct Hz as [Hz|[Hz|Hz]]; [exact Hz| lia |].
    specialize (Hafter _ Hz). lia. }
  destruct st as [[start_x c] commands].
  unfold scan_pixel, run_invariant in *.
  assert (Hcol : colour x y =
                 let '(r, g, b, a) := pixels x y in
                 if transparency_threshold <? a
                 then Some (rgb_to_hex (r, g, b)) else None) by reflexivity.
  destruct (pixels x y) as [[[r g] b] a].
  assert (Hopen : forall h,
    colour x y = Some h ->
    exists s, Some h = Some s /\ In x (seen ++ [x]) /\
      forall x', In x' (seen ++ [x]) -> x <= x' -> colour x' y = Some s).
  { intros h Hh. exists h. split; [reflexivity|]. split.
    - apply in_or_app. right. now left.
    - intros x' Hx' Hle. apply in_app_or in Hx'.
      destruct Hx' as [Hx'|[<-|[]]]; [|exact Hh].
      specialize (Hbefore _ Hx'). lia. }
  destruct (transparency_threshold <? a) eqn:Ha.
  - destruct (start_x =? -1) eqn:Hs.
    + split; [right; now apply Hopen|].
      exists []. simpl. rewrite app_nil_r. auto.
    + apply Z.eqb_neq in Hs.
      destruct Hinv as [[Hinv _]|(s & -> & Hin & Hrun)]; [contradiction|].
      destruct (color_differs (rgb_to_hex (r, g, b)) (Some s)) eqn:Hd.
      * apply color_differs_spec in Hd.
        split; [right; now apply Hopen|].
        eexists. simpl. split; [reflexivity|]. constructor; [|constructor].
        apply emitted_break; [now apply Hseen | exact Hx | | |].
        -- specialize (Hbefore _ Hin). lia.
        -- intros x' Hx' Hlt. apply Hrun; [|lia]. eapply Hbetween; eauto.
        -- rewrite Hcol. congruence.
      * assert (Hsame : rgb_to_hex (r, g, b) = s).
        { destruct (String.eqb_spec (rgb_to_hex (r, g, b)) s) as [E|E];
            [exact E|]. apply color_differs_spec in E. congruence. }
        split.
        -- right. exists s. split; [reflexivity|]. split.
           ++ apply in_or_app. now left.
           ++ intros x' Hx' Hle. apply in_app_or in Hx'.
              destruct Hx' as [Hx'|[<-|[]]]; [now apply Hrun|].
              rewrite Hcol. now rewrite Hsame.
        -- exists []. simpl. rewrite app_nil_r. auto.
  - destruct (start_x =? -1) eqn:Hs; simpl.
    + apply Z.eqb_eq in Hs. split.
      * left. destruct Hinv as [Hinv|(s & _ & Hin & _)]; [exact Hinv|].
        apply Hseen, (visited_nonneg _ _ _ Hq) in Hin. lia.
      * exists []. simpl. rewrite app_nil_r. auto.
    + apply Z.eqb_neq in Hs.
      destruct Hinv as [[Hinv _]|(s & -> & Hin & Hrun)]; [contradiction|].
      split; [left; auto|].
      eexists. split; [reflexivity|]. constructor; [|constructor].
      apply emitted_break; [now apply Hseen | exact Hx | | |].
      * specialize (Hbefore _ Hin). lia.
      * intros x' Hx' Hlt. apply Hrun; [|lia]. eapply Hbetween; eauto.
      * rewrite Hcol. discriminate.
Qed.

(** The inner loop from any point on. *)
Lemma scan_pixels_run (y : Z) (rest seen : list Z) (st : ScanState) :
  1 <= quality_factor ->
  seen ++ rest = xs ->
  run_inv y seen st ->
  run_inv y xs (fold_left (step y) rest st) /\
  exists new, snd (fold_left (step y) rest st) = snd st ++ new /\
              Forall (emits y) new.
Proof.
  intros Hq. revert seen st.
  induction rest as [|x rest IH]; intros seen st Hxs Hinv; simpl.
  - rewrite app_nil_r in Hxs. subst seen. split; [exact Hinv|].
    exists []. rewrite app_nil_r. auto.
  - destruct (scan_pixel_step y x seen rest st Hq Hxs Hinv)
      as [Hinv1 (new1 & Hnew1 & Hall1)].
    destruct (IH (seen ++ [x]) (step y st x)) as [Hinv2 (new2 & Hnew2 & Hall2)].
    + rewrite <- app_assoc. exact Hxs.
    + exact Hinv1.
    + split; [exact Hinv2|]. exists (new1 ++ new2). split.
      * rewrite Hnew2, Hnew1. now rewrite app_assoc.
      * apply Forall_app. split; assumption.
Qed.

(** A row appends emitted commands only. *)
Lemma scan_row_emits (commands : list Command) (y : Z) :
  1 <= quality_factor ->
  exists new,
    scan_row pixels img_width offset_x offset_y output_size brush_thickness
      quality_factor transparency_threshold commands y = commands ++ new /\
    Forall (emits y) new.
Proof.
  intros Hq. unfold scan_row. fold xs.
  destruct (scan_pixels_run y xs [] (-1, None, commands) Hq eq_refl)
    as [Hinv (new & Hnew & Hall)].
  { left. split; reflexivity. }
  destruct (fold_left (step y) xs (-1, None, commands))
    as [[start_x c] cmds]. simpl in Hnew. subst cmds.
  unfold close_row.
  destruct (start_x =? -1) eqn:Hs; simpl.
  - exists new. split; [reflexivity | exact Hall].
  - apply Z.eqb_neq in Hs.
    destruct Hinv as [[Hinv _]|(s & -> & Hin & Hrun)]; [contradiction|].
    exists (new ++ [command start_x (img_width - 1) y (Some s)]).
    split; [now rewrite app_assoc|].
    apply Forall_app. split; [exact Hall|].
    constructor; [|constructor].
    apply emitted_row_end; assumption.
Qed.

Lemma scan_rows_emit (rows : list Z) (commands : list Command) (cmd : Command) :
  1 <= quality_factor ->
  In cmd (fold_left
            (scan_row pixels img_width offset_x offset_y output_size
               brush_thickness quality_factor transparency_threshold)
            rows commands) ->
  In cmd commands \/ exists y, In y rows /\ emits y cmd.
Proof.
  intros Hq. revert commands.
  induction rows as [|y rows IH]; intros commands Hin; simpl in Hin.
  - now left.
  - destruct (scan_row_emits commands y Hq) as (new & Hrow & Hall).
    rewrite Hrow in Hin. apply IH in Hin.
    destruct Hin as [Hin|(y' & Hy' & He)].
    + apply in_app_or in Hin. destruct Hin as [Hin|Hin]; [now left|].
      right. exists y. split; [now left|].
      rewrite List.Forall_forall in Hall. now apply Hall.
    + right. exists y'. split; [now right | exact He].
Qed.

(** Every command of the scan is emitted by a visited row. *)
Lemma scan_canvas_emits (cmd : Command) :
  1 <= quality_factor ->
  In cmd (scan_canvas pixels img_width img_height offset_x offset_y
            output_size brush_thickness quality_factor
            transparency_threshold) ->
  exists y, In y ys /\ emits y cmd.
Proof.
  intros Hq Hin. unfold scan_canvas in Hin.
  apply scan_rows_emit in Hin; [|exact Hq].
  destruct Hin as [[]|Hin]. exact Hin.
Qed.

End ScanlineFacts.

(** ** True division *)

Lemma truediv_le (a b w : Z) :
  1 <= w -> a <= b -> (truediv a w <= truediv b w)%Q.
Proof.
  intros Hw Hab. unfold truediv, Qdiv.
  apply Qmult_le_compat_r.
  - rewrite <- Zle_Qle. exact Hab.
  - apply Qinv_le_0_compat. change 0%Q with (inject_Z 0).
    rewrite <- Zle_Qle. lia.
Qed.

(** ** Properties of the emitted commands *)

Lemma emitted_ordered_horizontal
    (pixels : Z -> Z -> Sample) (img_width offset_x offset_y : Z)
    (output_size : Z * Z)
    (brush_thickness quality_factor transparency_threshold y : Z)
    (cmd : Command) :
  1 <= quality_factor ->
  1 <= fst output_size ->
  emitted pixels img_width offset_x offset_y output_size brush_thickness
    quality_factor transparency_threshold y cmd ->
  snd (start_norm cmd) = snd (end_norm cmd) /\
  (fst (start_norm cmd) <= fst (end_norm cmd))%Q /\
  thickness cmd = brush_thickness.
Proof.
  intros Hq Hw He.
  destruct He as [start_x x c Hs Hx Hlt _ _ | start_x c Hs _]; simpl.
  - repeat split. apply truediv_le; lia.
  - repeat split. apply truediv_le; [exact Hw|].
    apply (visited_nonneg _ _ _ Hq) in Hs. lia.
Qed.

(** C2, as the code has it. For every stride of at least 1, every emitted
    command belongs to a visited row [y] and a run of visited columns of
    one colour starting at a visited column [start_x].  A run closed at a
    visited column (colour change or transparent sample) ends at the
    pixel column just before that column; a run still open after the last
    visited column ends at pixel column [img_width - 1].  With stride 1
    this end column is itself a visited column of the run. *)
Theorem run_ends_at_pixel_before_break
    (pixels : Z -> Z -> Sample) (img_width img_height offset_x offset_y : Z)
    (output_size : Z * Z)
    (brush_thickness quality_factor transparency_threshold : Z)
    (cmd : Command) :
  1 <= quality_factor ->
  In cmd (scan_canvas pixels img_width img_height offset_x offset_y
            output_size brush_thickness quality_factor
            transparency_threshold) ->
  exists (y start_x end_x : Z) (c : string),
    In y (visited_rows img_height quality_factor) /\
    In start_x (visited_columns img_width quality_factor) /\
    start_x <= end_x /\
    cmd = line_command offset_x offset_y output_size brush_thickness
            start_x end_x y (Some c) /\
    (forall x', In x' (visited_columns img_width quality_factor) ->
                start_x <= x' <= end_x ->
                opaque_color pixels transparency_threshold x' y = Some c) /\
    ((In (end_x + 1) (visited_columns img_width quality_factor) /\
      opaque_color pixels transparency_threshold (end_x + 1) y <> Some c) \/
     (end_x = img_width - 1 /\
      forall x', In x' (visited_columns img_width quality_factor) ->
                 start_x <= x' ->
                 opaque_color pixels transparency_threshold x' y = Some c)) /\
    (quality_factor = 1 ->
     In end_x (visited_columns img_width quality_factor)).
Proof.
  intros Hq Hin.
  destruct (scan_canvas_emits _ _ _ _ _ _ _ _ _ _ Hq Hin) as (y & Hy & He).
  destruct He as [start_x x c Hs Hx Hlt Hrun Hbreak | start_x c Hs Hrun].
  - exists y, start_x, (x - 1), c.
    replace (x - 1 + 1) with x by lia.
    repeat split; auto; try lia.
    + intros x' Hx' Hle. apply Hrun; [exact Hx' | lia].
    + intros ->. apply py_range_In; [lia|].
      apply (visited_nonneg _ _ _ Hq) in Hs, Hx.
      split; [lia | apply Z.mod_1_r].
  - pose proof (visited_nonneg _ _ _ Hq Hs) as Hb.
    exists y, start_x, (img_width - 1), c.
    repeat split; auto; try lia.
    + intros x' Hx' Hle. apply Hrun; [exact Hx' | lia].
    + intros ->. apply py_range_In; [lia|].
      split; [lia | apply Z.mod_1_r].
Qed.



(** ** The store *)

Lemma fresh_unused (s : Store) : s !! fresh (dom s) = None.
Proof. apply not_elem_of_dom. apply is_fresh. Qed.

Lemma deref_run (s : Store) (r : nat) (im : Image) :
  s !! r = Some im -> deref r s = Done im s.
Proof. intros H. unfold deref. now rewrite H. Qed.

Lemma mutate_run (s : Store) (r : nat) (f : Image -> Image) (im : Image) :
  s !! r = Some im -> mutate r f s = Done tt (<[r := f im]> s).
Proof. intros H. unfold mutate. now rewrite H. Qed.

Section EncoderFacts.

Variable resample : Image -> Z -> Z -> Z -> Z -> Sample.

(** The normaliser returns a new canvas holding [frame_canvas], the
    offsets of [frame_offsets], and keeps every object the store
    held. *)
Lemma normalize_frame_run (s : Store) (image_input : nat) (im : Image)
    (output_size : Z * Z) :
  s !! image_input = Some im ->
  exists (canvas : nat) (s' : Store),
    normalize_frame resample image_input output_size s
    = Done (canvas,
            fst (frame_offsets (thumbnail_image resample im output_size)
                   output_size),
            snd (frame_offsets (thumbnail_image resample im output_size)
                   output_size)) s' /\
    s' !! canvas = Some (frame_canvas resample im output_size) /\
    s ⊆ s'.
Proof.
  intros Him.
  set (r1 := fresh (dom s)).
  set (scaled := thumbnail_image resample im output_size).
  set (s1 := <[r1 := scaled]> (<[r1 := im]> s)).
  set (r2 := fresh (dom s1)).
  set (blank := new_image output_size (255, 255, 255, 0)).
  set (s2 := <[r2 := blank]> s1).
  assert (H11 : s1 !! r1 = Some scaled) by apply lookup_insert_eq.
  assert (H2 : s1 !! r2 = None) by apply fresh_unused.
  assert (Hne : r2 <> r1) by congruence.
  assert (H21 : s2 !! r1 = Some scaled)
    by (unfold s2; now rewrite lookup_insert_ne).
  assert (H22 : s2 !! r2 = Some blank) by apply lookup_insert_eq.
  exists r2, (<[r2 := frame_canvas resample im output_size]> s2).
  split; [|split].
  - unfold normalize_frame, convert_RGBA, thumbnail, Image_new, paste, bind.
    rewrite (deref_run s image_input im Him).
    unfold alloc. fold r1.
    rewrite (mutate_run (<[r1 := im]> s) r1 _ im) by apply lookup_insert_eq.
    fold scaled s1 r2 blank s2.
    rewrite (deref_run s2 r1 scaled H21).
    rewrite (deref_run s2 r1 scaled H21).
    rewrite (mutate_run s2 r2 _ blank H22).
    reflexivity.
  - apply lookup_insert_eq.
  - apply map_subseteq_spec. intros k v Hk.
    assert (k <> r1).
    { intros ->. unfold r1 in Hk. rewrite fresh_unused in Hk. discriminate. }
    assert (Hk1 : s1 !! k = Some v).
    { unfold s1. rewrite !lookup_insert_ne by congruence. exact Hk. }
    assert (k <> r2) by congruence.
    unfold s2. rewrite !lookup_insert_ne by congruence. exact Hk1.
Qed.

(** The encoder raises [ValueError] on a zero stride and returns
    [frame_commands] of the frame's contents otherwise; either way it
    keeps every object the store held. *)
Lemma get_drawing_commands_outcome (s : Store) (image_input : nat)
    (im : Image) (output_size : Z * Z)
    (brush_thickness quality_factor transparency_threshold : Z) :
  s !! image_input = Some im ->
  exists s' : Store,
    s ⊆ s' /\
    get_drawing_commands_from_image resample image_input output_size
      brush_thickness quality_factor transparency_threshold s
    = if quality_factor =? 0 then Raised ValueError s'
      else Done (frame_commands resample im output_size brush_thickness
                   quality_factor transparency_threshold) s'.
Proof.
  intros Him.
  destruct (normalize_frame_run s image_input im output_size Him)
    as (canvas & s' & Hrun & Hcanvas & Hsub).
  exists s'. split; [exact Hsub|].
  unfold get_drawing_commands_from_image, bind. rewrite Hrun.
  rewrite (deref_run s' canvas _ Hcanvas).
  destruct (quality_factor =? 0); reflexivity.
Qed.

Lemma get_drawing_commands_run (s : Store) (image_input : nat) (im : Image)
    (output_size : Z * Z)
    (brush_thickness quality_factor transparency_threshold : Z) :
  s !! image_input = Some im ->
  quality_factor <> 0 ->
  exists s' : Store,
    get_drawing_commands_from_image resample image_input output_size
      brush_thickness quality_factor transparency_threshold s
    = Done (frame_commands resample im output_size brush_thickness
              quality_factor transparency_threshold) s' /\
    s ⊆ s'.
Proof.
  intros Him Hq.
  destruct (get_drawing_commands_outcome s image_input im output_size
              brush_thickness quality_factor transparency_threshold Him)
    as (s' & Hsub & Hrun).
  exists s'. split; [|exact Hsub].
  apply Z.eqb_neq in Hq. now rewrite Hq in Hrun.
Qed.

End EncoderFacts.

Lemma fold_left_ext_in {A B : Type} (f g : A -> B -> A) (l : list B) (a : A) :
  (forall a' b, In b l -> f a' b = g a' b) ->
  fold_left f l a = fold_left g l a.
Proof.
  revert a. induction l as [|b l IH]; intros a Hfg; simpl; [reflexivity|].
  rewrite Hfg by now left. apply IH. intros a' b' Hb'. apply Hfg. now right.
Qed.

(** The scan reads the visited samples only. *)
Lemma scan_canvas_ext (pixels1 pixels2 : Z -> Z -> Sample)
    (img_width img_height offset_x offset_y : Z) (output_size : Z * Z)
    (brush_thickness quality_factor transparency_threshold : Z) :
  (forall x y, In x (visited_columns img_width quality_factor) ->
               In y (visited_rows img_height quality_factor) ->
               pixels1 x y = pixels2 x y) ->
  scan_canvas pixels1 img_width img_height offset_x offset_y output_size
    brush_thickness quality_factor transparency_threshold
  = scan_canvas pixels2 img_width img_height offset_x offset_y output_size
      brush_thickness quality_factor transparency_threshold.
Proof.
  intros Hsame. unfold scan_canvas. apply fold_left_ext_in.
  intros commands y Hy. unfold scan_row. f_equal.
  apply fold_left_ext_in. intros st x Hx.
  unfold scan_pixel. now rewrite (Hsame x y Hx Hy).
Qed.

Lemma get_drawing_commands_returned
    (resample : Image -> Z -> Z -> Z -> Z -> Sample)
    (s : Store) (image_input : nat) (im : Image) (output_size : Z * Z)
    (brush_thickness quality_factor transparency_threshold : Z) :
  s !! image_input = Some im ->
  returned (get_drawing_commands_from_image resample image_input output_size
              brush_thickness quality_factor transparency_threshold s)
  = if quality_factor =? 0 then None
    else Some (frame_commands resample im output_size brush_thickness
                 quality_factor transparency_threshold).
Proof.
  intros Him.
  destruct (get_drawing_commands_outcome resample s image_input im output_size
              brush_thickness quality_factor transparency_threshold Him)
    as (s' & _ & ->).
  destruct (quality_factor =? 0); reflexivity.
Qed.

(** C4. For every stride of at least 1 and canvas width of at least 1,
    every command the scanline loops emit, on any canvas, and so every
    command [get_drawing_commands_from_image] returns, is a horizontal
    segment (its start and end have the same y), its start x is at most
    its end x, and its thickness is the brush thickness passed in. *)
Theorem commands_are_ordered_horizontal_segments
    (output_size : Z * Z)
    (brush_thickness quality_factor transparency_threshold : Z) :
  1 <= quality_factor ->
  1 <= fst output_size ->
  (forall (pixels : Z -> Z -> Sample)
          (img_width img_height offset_x offset_y : Z) (cmd : Command),
     In cmd (scan_canvas pixels img_width img_height offset_x offset_y
               output_size brush_thickness quality_factor
               transparency_threshold) ->
     snd (start_norm cmd) = snd (end_norm cmd) /\
     (fst (start_norm cmd) <= fst (end_norm cmd))%Q /\
     thickness cmd = brush_thickness) /\
  (forall (resample : Image -> Z -> Z -> Z -> Z -> Sample)
          (s s' : Store) (image_input : nat) (im : Image)
          (commands : list Command) (cmd : Command),
     s !! image_input = Some im ->
     get_drawing_commands_from_image resample image_input output_size
       brush_thickness quality_factor transparency_threshold s
     = Done commands s' ->
     In cmd commands ->
     snd (start_norm cmd) = snd (end_norm cmd) /\
     (fst (start_norm cmd) <= fst (end_norm cmd))%Q /\
     thickness cmd = brush_thickness).
Proof.
  intros Hq Hw.
  assert (Hscan : forall (pixels : Z -> Z -> Sample)
            (img_width img_height offset_x offset_y : Z) (cmd : Command),
     In cmd (scan_canvas pixels img_width img_height offset_x offset_y
               output_size brush_thickness quality_factor
               transparency_threshold) ->
     snd (start_norm cmd) = snd (end_norm cmd) /\
     (fst (start_norm cmd) <= fst (end_norm cmd))%Q /\
     thickness cmd = brush_thickness).
  { intros pixels img_width img_height offset_x offset_y cmd Hin.
    destruct (scan_canvas_emits _ _ _ _ _ _ _ _ _ _ Hq Hin) as (y & _ & He).
    exact (emitted_ordered_horizontal _ _ _ _ _ _ _ _ _ _ Hq Hw He). }
  split; [exact Hscan|].
  intros resample s s' image_input im commands cmd Him Hrun Hin.
  pose proof (get_drawing_commands_returned resample s image_input im
                output_size brush_thickness quality_factor
                transparency_threshold Him) as Hret.
  rewrite Hrun in Hret. simpl in Hret.
  destruct (quality_factor =? 0); [discriminate|].
  injection Hret as ->. unfold frame_commands in Hin.
  eapply Hscan. exact Hin.
Qed.

(** C10. A call of [get_drawing_commands_from_image] leaves the caller's
    frame as it was, whether the call returns or raises: the store it
    leaves holds the same image at the frame's reference, and the same
    object at every reference the store held before; with a non-zero
    stride, and an output size and a frame of positive width and height,
    the call returns. *)
Theorem input_image_unchanged
    (resample : Image -> Z -> Z -> Z -> Z -> Sample)
    (s : Store) (image_input : nat) (im : Image) (output_size : Z * Z)
    (brush_thickness quality_factor transparency_threshold : Z) :
  s !! image_input = Some im ->
  let call := get_drawing_commands_from_image resample image_input
                output_size brush_thickness quality_factor
                transparency_threshold s in
  final_store call !! image_input = Some im /\
  (forall (r : nat) (other : Image),
     s !! r = Some other -> final_store call !! r = Some other) /\
  (quality_factor <> 0 ->
   1 <= fst output_size -> 1 <= snd output_size ->
   1 <= width im -> 1 <= height im ->
   exists commands : list Command, call = Done commands (final_store call)).
Proof.
  intros Him call.
  destruct (get_drawing_commands_outcome resample s image_input im output_size
              brush_thickness quality_factor transparency_threshold Him)
    as (s' & Hsub & Hrun).
  fold call in Hrun.
  assert (Hfinal : final_store call = s')
    by (rewrite Hrun; destruct (quality_factor =? 0); reflexivity).
  rewrite Hfinal. split; [|split].
  - eapply lookup_weaken; eassumption.
  - intros r other Hr. eapply lookup_weaken; eassumption.
  - intros Hq _ _ _ _. apply Z.eqb_neq in Hq. rewrite Hq in Hrun.
    eexists. exact Hrun.
Qed.

(** C8. The encoder is deterministic. Two calls on frames with the same
    contents and with the same parameters return the same command list,
    whatever the two stores hold besides; a second call in the store the
    first call left returns the list of the first; and two scans of
    canvases that agree on every visited sample give the same list. *)
Theorem encoder_is_deterministic
    (resample : Image -> Z -> Z -> Z -> Z -> Sample)
    (output_size : Z * Z)
    (brush_thickness quality_factor transparency_threshold : Z) :
  (forall (s1 s2 : Store) (r1 r2 : nat) (im : Image),
     s1 !! r1 = Some im -> s2 !! r2 = Some im ->
     returned (get_drawing_commands_from_image resample r1 output_size
                 brush_thickness quality_factor transparency_threshold s1)
     = returned (get_drawing_commands_from_image resample r2 output_size
                   brush_thickness quality_factor transparency_threshold s2)) /\
  (forall (s s' : Store) (r : nat) (im : Image) (commands : list Command),
     s !! r = Some im ->
     get_drawing_commands_from_image resample r output_size
       brush_thickness quality_factor transparency_threshold s
     = Done commands s' ->
     returned (get_drawing_commands_from_image resample r output_size
                 brush_thickness quality_factor transparency_threshold s')
     = Some commands) /\
  (forall (pixels1 pixels2 : Z -> Z -> Sample)
          (img_width img_height offset_x offset_y : Z),
     (forall x y, In x (visited_columns img_width quality_factor) ->
                  In y (visited_rows img_height quality_factor) ->
                  pixels1 x y = pixels2 x y) ->
     scan_canvas pixels1 img_width img_height offset_x offset_y output_size
       brush_thickness quality_factor transparency_threshold
     = scan_canvas pixels2 img_width img_height offset_x offset_y output_size
         brush_thickness quality_factor transparency_threshold).
Proof.
  split; [|split].
  - intros s1 s2 r1 r2 im H1 H2.
    now rewrite !(get_drawing_commands_returned _ _ _ im).
  - intros s s' r im commands Him Hrun.
    pose proof (get_drawing_commands_returned resample s r im output_size
                  brush_thickness quality_factor transparency_threshold Him)
      as Hret.
    rewrite Hrun in Hret. simpl in Hret.
    destruct (quality_factor =? 0) eqn:Hq; [discriminate|].
    apply Z.eqb_neq in Hq.
    destruct (get_drawing_commands_run resample s r im output_size
                brush_thickness quality_factor transparency_threshold Him Hq)
      as (s0 & Hrun0 & Hsub).
    rewrite Hrun in Hrun0. injection Hrun0 as _ ->.
    rewrite (get_drawing_commands_returned _ _ _ im)
      by (eapply lookup_weaken; eassumption).
    apply Z.eqb_neq in Hq. rewrite Hq. symmetry. exact Hret.
  - intros. now apply scan_canvas_ext.
Qed.

(** ** The frame loop *)

Section AggregatorFacts.

Variable resample : Image -> Z -> Z -> Z -> Z -> Sample.
Variable gif : nat.
Variable output_size : Z * Z.
Variables brush_thickness quality_factor transparency_threshold : Z.
Variable max_frames : option Z.

Local Abbreviation loop :=
  (process_frames resample gif output_size brush_thickness quality_factor
     transparency_threshold max_frames).
Local Abbreviation commands_of :=
  (fun f => frame_commands resample (frame_image f) output_size
              brush_thickness quality_factor transparency_threshold).

Lemma totals_consistent_step (frames_data : list (list Command))
    (total_commands count : Z) (commands : list Command) :
  totals_consistent (frames_data, total_commands, count) ->
  totals_consistent (frames_data ++ [commands],
                     total_commands + Z.of_nat (length commands),
                     count + 1).
Proof.
  unfold totals_consistent. intros [-> ->].
  rewrite length_app, List.map_app, list_sum_app. simpl. lia.
Qed.

Lemma seek_run (s : Store) (frame : GifFrame) (current : Image) :
  s !! gif = Some current ->
  seek gif frame s = Done (frame_duration frame) (<[gif := frame_image frame]> s).
Proof.
  intros Hgif. unfold seek, bind. now rewrite (mutate_run s gif _ current Hgif).
Qed.

(** Whenever the loop returns, it returns consistent counters. *)
Lemma process_frames_consistent (pending : list GifFrame) :
  forall (i : Z) (info info' : option Z) (acc acc' : Totals) (s s' : Store),
    loop pending i info acc s = Done (info', acc') s' ->
    totals_consistent acc -> totals_consistent acc'.
Proof.
  induction pending as [|next rest IH];
    intros i info info' acc acc' s s' Hrun Hacc; simpl in Hrun.
  - unfold ret in Hrun. congruence.
  - unfold bind at 1 in Hrun.
    destruct (seek gif next s) as [info1 s1|e s1]; [|discriminate].
    destruct (cap_reached max_frames i).
    + unfold ret in Hrun. congruence.
    + unfold bind in Hrun.
      destruct (get_drawing_commands_from_image resample gif output_size
                  brush_thickness quality_factor transparency_threshold s1)
        as [commands s2|e s2]; [|discriminate].
      destruct acc as [[frames_data total_commands] count].
      eapply IH; [exact Hrun|]. now apply totals_consistent_step.
Qed.

(** With a non-zero stride the loop returns, having encoded exactly the
    frames of [frames_taken], in order. *)
Lemma process_frames_run (pending : list GifFrame) :
  forall (i : Z) (info : option Z) (frames_data : list (list Command))
         (total_commands count : Z) (s : Store),
    quality_factor <> 0 ->
    is_Some (s !! gif) ->
    exists (info' : option Z) (total_commands' : Z) (s' : Store),
      loop pending i info (frames_data, total_commands, count) s
      = Done (info',
              (frames_data ++
                 List.map commands_of (frames_taken max_frames pending i),
               total_commands',
               count + Z.of_nat (length (frames_taken max_frames pending i))))
             s'.
Proof.
  induction pending as [|next rest IH];
    intros i info frames_data total_commands count s Hq [current Hgif]; simpl.
  - exists info, total_commands, s. unfold ret.
    rewrite app_nil_r, Z.add_0_r. reflexivity.
  - unfold bind at 1. rewrite (seek_run s next current Hgif).
    destruct (cap_reached max_frames i).
    + exists (frame_duration next), total_commands,
        (<[gif := frame_image next]> s).
      unfold ret. simpl. rewrite app_nil_r, Z.add_0_r. reflexivity.
    + destruct (get_drawing_commands_run resample
                  (<[gif := frame_image next]> s) gif (frame_image next)
                  output_size brush_thickness quality_factor
                  transparency_threshold (lookup_insert_eq _ _ _) Hq)
        as (s2 & Henc & Hsub).
      destruct (IH (i + 1) (frame_duration next)
                  (frames_data ++ [commands_of next])
                  (total_commands + Z.of_nat (length (commands_of next)))
                  (count + 1) s2 Hq) as (info' & total' & s' & Hloop).
      { exists (frame_image next). eapply lookup_weaken; [|exact Hsub].
        apply lookup_insert_eq. }
      exists info', total', s'. unfold bind. rewrite Henc, Hloop. simpl.
      rewrite <- app_assoc. simpl.
      replace (count + 1 + Z.of_nat (length (frames_taken max_frames rest (i + 1))))
        with (count + Z.pos (Pos.of_succ_nat
                (length (frames_taken max_frames rest (i + 1))))) by lia.
      reflexivity.
Qed.

End AggregatorFacts.

(** Under a cap of [n] the loop takes the first [n - i] pending frames. *)
Lemma frames_taken_cap (n : Z) (pending : list GifFrame) :
  forall i : Z,
    frames_taken (Some n) pending i = firstn (Z.to_nat (n - i)) pending.
Proof.
  induction pending as [|next rest IH]; intros i; simpl.
  - now rewrite firstn_nil.
  - destruct (n <=? i) eqn:Hcap.
    + apply Z.leb_le in Hcap.
      replace (Z.to_nat (n - i)) with O by lia. reflexivity.
    + apply Z.leb_gt in Hcap.
      replace (Z.to_nat (n - i)) with (S (Z.to_nat (n - (i + 1)))) by lia.
      simpl. now rewrite IH.
Qed.

(** The processor on a file that opens, with a non-zero stride. *)
Lemma processor_run
    (resample : Image -> Z -> Z -> Z -> Z -> Sample)
    (file : GifFile) (output_size : Z * Z)
    (brush_thickness quality_factor transparency_threshold : Z)
    (max_frames : option Z) (s : Store) :
  gif_frames file <> [] ->
  quality_factor <> 0 ->
  exists (total : Z) (s' : Store),
    gif_to_drawaria_json_processor resample (Some file) output_size
      brush_thickness quality_factor transparency_threshold max_frames s
    = Done (Some
        {| frames :=
             List.map (fun f => frame_commands resample (frame_image f)
                                  output_size brush_thickness quality_factor
                                  transparency_threshold)
                      (frames_taken max_frames (gif_frames file) 0);
           metadata :=
             {| md_width := fst output_size;
                md_height := snd output_size;
                original_fps := fps_of_info (declared_delay file);
                frame_count :=
                  Z.of_nat (length (frames_taken max_frames (gif_frames file) 0));
                total_commands_generated := total;
                processing_options :=
                  {| po_brush_thickness := brush_thickness;
                     po_quality_factor := quality_factor;
                     po_transparency_threshold := transparency_threshold;
                     max_frames_processed := max_frames |} |} |}) s'.
Proof.
  intros Hframes Hq.
  unfold gif_to_drawaria_json_processor, Image_open.
  destruct (gif_frames file) as [|first rest] eqn:Hfile; [congruence|].
  unfold bind at 1. unfold bind at 1. unfold alloc, ret at 1.
  destruct (process_frames_run resample (fresh (dom s)) output_size
              brush_thickness quality_factor transparency_threshold max_frames
              (first :: rest) 0 (declared_delay file) [] 0 0
              (<[fresh (dom s) := frame_image first]> s) Hq)
    as (info' & total & s' & Hloop).
  { exists (frame_image first). apply lookup_insert_eq. }
  exists total, s'. unfold bind. rewrite Hfile, Hloop. reflexivity.
Qed.

(** ** Properties of the conversion result

    The Pillow operations above are those for images and requested sizes
    of positive width and height; with a width or a height of 0
    [Image.thumbnail] divides by zero.  The statements that assert a
    return assume an output size and frames of positive width and
    height. *)


(** C7. The frame rate in the metadata is fixed by the delay the source
    declares when it is opened, that of its first frame, read once
    before the frame loop: it is 1000 divided by that delay in
    milliseconds when the delay is declared and not zero, and 10 when
    none is declared or when it is zero, whatever delays the later
    frames declare and whatever the frames and the options are. *)
Theorem fps_from_declared_delay
    (resample : Image -> Z -> Z -> Z -> Z -> Sample)
    (first : GifFrame) (rest : list GifFrame) (output_size : Z * Z)
    (brush_thickness quality_factor transparency_threshold : Z)
    (max_frames : option Z) (s : Store) :
  1 <= fst output_size ->
  1 <= snd output_size ->
  positive_frames (first :: rest) ->
  quality_factor <> 0 ->
  exists (out : OutputData) (s' : Store),
    gif_to_drawaria_json_processor resample
      (Some {| gif_frames := first :: rest |}) output_size
      brush_thickness quality_factor transparency_threshold max_frames s
    = Done (Some out) s' /\
    (frame_duration first = None -> original_fps (metadata out) = 10%Q) /\
    (forall d : Z, frame_duration first = Some d -> d <> 0 ->
                   original_fps (metadata out)
                   = (inject_Z 1000 / inject_Z d)%Q) /\
    (frame_duration first = Some 0 -> original_fps (metadata out) = 10%Q).
Proof.
  intros _ _ _ Hq.
  assert (Hframes : gif_frames {| gif_frames := first :: rest |} <> [])
    by discriminate.
  destruct (processor_run resample {| gif_frames := first :: rest |}
              output_size brush_thickness quality_factor
              transparency_threshold max_frames s Hframes Hq)
    as (total & s' & Hrun).
  eexists _, s'. split; [exact Hrun|].
  cbn [metadata original_fps declared_delay gif_frames]. unfold fps_of_info.
  split; [|split].
  - now intros ->.
  - intros d -> Hd. apply Z.eqb_neq in Hd. now rewrite Hd.
  - now intros ->.
Qed.

(** C9. In every result the processor produces, [frame_count] is the
    length of the frames list, [total_commands_generated] is the sum of
    the lengths of the per-frame command lists, and [processing_options]
    holds the brush thickness, quality factor, transparency threshold and
    frame cap that were passed in; and a result is produced for every
    file that opens, when the stride is not zero and the output size and
    the frames have positive width and height. *)
Theorem metadata_agrees_with_frames
    (resample : Image -> Z -> Z -> Z -> Z -> Sample)
    (source : option GifFile) (output_size : Z * Z)
    (brush_thickness quality_factor transparency_threshold : Z)
    (max_frames : option Z) (s : Store) :
  (forall (out : OutputData) (s' : Store),
     gif_to_drawaria_json_processor resample source output_size
       brush_thickness quality_factor transparency_threshold max_frames s
     = Done (Some out) s' ->
     frame_count (metadata out) = Z.of_nat (length (frames out)) /\
     total_commands_generated (metadata out)
     = Z.of_nat (list_sum (List.map (@length Command) (frames out))) /\
     processing_options (metadata out)
     = {| po_brush_thickness := brush_thickness;
          po_quality_factor := quality_factor;
          po_transparency_threshold := transparency_threshold;
          max_frames_processed := max_frames |}) /\
  (forall file : GifFile,
     source = Some file -> gif_frames file <> [] -> quality_factor <> 0 ->
     1 <= fst output_size -> 1 <= snd output_size ->
     positive_frames (gif_frames file) ->
     exists (out : OutputData) (s' : Store),
       gif_to_drawaria_json_processor resample source output_size
         brush_thickness quality_factor transparency_threshold max_frames s
       = Done (Some out) s').
Proof.
  split.
  - intros out s' Hrun.
    unfold gif_to_drawaria_json_processor, Image_open in Hrun.
    destruct source as [file|]; [|discriminate].
    destruct (gif_frames file) as [|first rest] eqn:Hfile; [discriminate|].
    unfold bind at 1 in Hrun. unfold bind at 1 in Hrun.
    unfold alloc, ret at 1 in Hrun. unfold bind in Hrun.
    rewrite Hfile in Hrun.
    destruct (process_frames _ _ _ _ _ _ _ _ _ _ _ _)
      as [[info' [[frames_data total_commands] count]] s1|e s1] eqn:Hloop;
      [|discriminate].
    apply process_frames_consistent in Hloop;
      [|split; reflexivity].
    destruct Hloop as [Hcount Htotal].
    unfold ret in Hrun. injection Hrun as <- _. simpl. auto.
  - intros file -> Hframes Hq _ _ _.
    destruct (processor_run resample file output_size brush_thickness
                quality_factor transparency_threshold max_frames s Hframes Hq)
      as (total & s' & Hrun).
    eexists _, s'. exact Hrun.
Qed.

(** ** The size [thumbnail] chooses *)

Lemma truediv_pos (a : Z) (p : positive) : (truediv a (Z.pos p) == a # p)%Q.
Proof.
  unfold truediv, Qdiv, Qinv, Qmult, inject_Z, Qeq. simpl.
  rewrite Pos.mul_1_l. ring.
Qed.

Lemma scaled_as_fraction (a b : Z) (p : positive) :
  (inject_Z a * truediv b (Z.pos p) == (a * b) # p)%Q.
Proof.
  rewrite truediv_pos. unfold Qmult, inject_Z, Qeq. simpl.
  rewrite ?Pos.mul_1_l. ring.
Qed.

Lemma Qfloor_scaled (a b h : Z) :
  1 <= h -> Qfloor (inject_Z a * truediv b h) = a * b / h.
Proof.
  intros Hh. destruct h as [|p|p]; try lia.
  rewrite scaled_as_fraction. reflexivity.
Qed.

Lemma Qceiling_scaled (a b h : Z) :
  1 <= h -> Qceiling (inject_Z a * truediv b h) = - (- (a * b) / h).
Proof.
  intros Hh. destruct h as [|p|p]; try lia.
  rewrite scaled_as_fraction. reflexivity.
Qed.

Lemma inverse_scaled (a w h : Z) :
  1 <= w -> 1 <= h ->
  (inject_Z a / truediv w h == inject_Z (a * h) * truediv 1 w)%Q.
Proof.
  intros Hw Hh. destruct h as [|p|p]; try lia. destruct w as [|q|q]; try lia.
  rewrite !truediv_pos. unfold Qdiv, Qinv, Qmult, inject_Z, Qeq. simpl.
  rewrite ?Pos.mul_1_l, ?Pos.mul_1_r, ?Pos2Z.inj_mul. ring.
Qed.

Lemma aspect_le (w h W H : Z) :
  1 <= h -> 1 <= H ->
  Qle_bool (truediv w h) (truediv W H) = true <-> w * H <= W * h.
Proof.
  intros Hh HH. rewrite Qle_bool_iff.
  destruct h as [|p|p]; try lia. destruct H as [|q|q]; try lia.
  rewrite !truediv_pos. unfold Qle. simpl. reflexivity.
Qed.

Lemma round_aspect_cases (number : Q) (key : Z -> Q) :
  exists p, (p = Qfloor number \/ p = Qceiling number) /\
            round_aspect number key = Z.max p 1.
Proof.
  unfold round_aspect.
  destruct (Qle_bool (key (Qfloor number)) (key (Qceiling number))).
  - exists (Qfloor number). split; [now left | reflexivity].
  - exists (Qceiling number). split; [now right | reflexivity].
Qed.

(** Floor and ceiling of a quotient that is at most [bound]. *)
Lemma quotient_bounds (n d bound : Z) :
  1 <= d -> n <= bound * d ->
  n / d <= bound /\ - (- n / d) <= bound.
Proof.
  intros Hd Hn. split.
  - apply Z.div_le_upper_bound; lia.
  - assert (- bound <= - n / d) by (apply Z.div_le_lower_bound; lia). lia.
Qed.

Section ThumbnailFacts.

Variable resample : Image -> Z -> Z -> Z -> Z -> Sample.

(** The size of the image [thumbnail] leaves. *)
Lemma thumbnail_image_size (im : Image) (size : Z * Z) :
  (width (thumbnail_image resample im size),
   height (thumbnail_image resample im size))
  = match preserve_aspect_ratio (width im) (height im) size with
    | Some d => d
    | None => (width im, height im)
    end.
Proof.
  unfold thumbnail_image.
  destruct (preserve_aspect_ratio (width im) (height im) size)
    as [[w' h']|]; [|reflexivity].
  destruct ((w' =? width im) && (h' =? height im))%bool eqn:Hsame;
    [|reflexivity].
  apply andb_prop in Hsame. destruct Hsame as [Hw Hh].
  apply Z.eqb_eq in Hw, Hh. now subst.
Qed.

Lemma thumbnail_image_fits (im : Image) (W H : Z) :
  width im <= W -> height im <= H ->
  thumbnail_image resample im (W, H) = im.
Proof.
  intros Hw Hh. unfold thumbnail_image, preserve_aspect_ratio.
  apply Z.leb_le in Hw, Hh. now rewrite Hw, Hh.
Qed.

(** A frame as wide, relative to its height, as the target or less is
    bound by the target's height. *)
Lemma thumbnail_image_tall (im : Image) (W H : Z) :
  1 <= width im -> 1 <= height im -> 1 <= W -> 1 <= H ->
  ~ (width im <= W /\ height im <= H) ->
  width im * H <= W * height im ->
  height (thumbnail_image resample im (W, H)) = H /\
  exists p, (p = H * width im / height im \/
             p = - (- (H * width im) / height im)) /\
            width (thumbnail_image resample im (W, H)) = Z.max p 1.
Proof.
  intros Hw Hh HW HH Hfit Hasp.
  pose proof (thumbnail_image_size im (W, H)) as Hsize.
  unfold preserve_aspect_ratio in Hsize.
  destruct ((width im <=? W) && (height im <=? H))%bool eqn:Hb.
  { apply andb_prop in Hb. destruct Hb as [H1 H2].
    apply Z.leb_le in H1, H2. tauto. }
  apply (aspect_le _ _ _ _ Hh HH) in Hasp. rewrite Hasp in Hsize.
  injection Hsize as Hsw Hsh. split; [exact Hsh|].
  rewrite Hsw.
  match goal with
  | |- context [round_aspect ?number ?key] =>
      destruct (round_aspect_cases number key) as (p & Hp & Hround)
  end.
  exists p. split; [|exact Hround].
  rewrite Qfloor_scaled, Qceiling_scaled in Hp by exact Hh. exact Hp.
Qed.

(** A frame wider, relative to its height, than the target is bound by
    the target's width. *)
Lemma thumbnail_image_wide (im : Image) (W H : Z) :
  1 <= width im -> 1 <= height im -> 1 <= W -> 1 <= H ->
  ~ (width im <= W /\ height im <= H) ->
  W * height im < width im * H ->
  width (thumbnail_image resample im (W, H)) = W /\
  exists p, (p = W * height im / width im \/
             p = - (- (W * height im) / width im)) /\
            height (thumbnail_image resample im (W, H)) = Z.max p 1.
Proof.
  intros Hw Hh HW HH Hfit Hasp.
  pose proof (thumbnail_image_size im (W, H)) as Hsize.
  unfold preserve_aspect_ratio in Hsize.
  destruct ((width im <=? W) && (height im <=? H))%bool eqn:Hb.
  { apply andb_prop in Hb. destruct Hb as [H1 H2].
    apply Z.leb_le in H1, H2. tauto. }
  destruct (Qle_bool (truediv (width im) (height im)) (truediv W H)) eqn:Hle.
  { apply (aspect_le _ _ _ _ Hh HH) in Hle. lia. }
  injection Hsize as Hsw Hsh. split; [exact Hsw|].
  rewrite Hsh.
  match goal with
  | |- context [round_aspect ?number ?key] =>
      destruct (round_aspect_cases number key) as (p & Hp & Hround)
  end.
  exists p. split; [|exact Hround].
  rewrite (inverse_scaled W _ _ Hw Hh) in Hp.
  rewrite Qfloor_scaled, Qceiling_scaled in Hp by exact Hw.
  rewrite !Z.mul_1_r in Hp. exact Hp.
Qed.

(** [thumbnail] leaves an image no larger than the requested size. *)
Lemma thumbnail_image_bounds (im : Image) (W H : Z) :
  1 <= width im -> 1 <= height im -> 1 <= W -> 1 <= H ->
  1 <= width (thumbnail_image resample im (W, H)) <= W /\
  1 <= height (thumbnail_image resample im (W, H)) <= H.
Proof.
  intros Hw Hh HW HH.
  destruct (Z_le_dec (width im) W) as [Hfw|Hfw];
    [destruct (Z_le_dec (height im) H) as [Hfh|Hfh]|].
  - rewrite thumbnail_image_fits by assumption. lia.
  - assert (Hfit : ~ (width im <= W /\ height im <= H)) by lia.
    assert (Hasp : width im * H <= W * height im) by nia.
    destruct (thumbnail_image_tall im W H Hw Hh HW HH Hfit Hasp)
      as (-> & p & Hp & ->).
    destruct (quotient_bounds (H * width im) (height im) W Hh ltac:(lia)).
    lia.
  - assert (Hfit : ~ (width im <= W /\ height im <= H)) by lia.
    destruct (Z_le_dec (width im * H) (W * height im)) as [Hasp|Hasp].
    + destruct (thumbnail_image_tall im W H Hw Hh HW HH Hfit Hasp)
        as (-> & p & Hp & ->).
      destruct (quotient_bounds (H * width im) (height im) W Hh ltac:(lia)).
      lia.
    + destruct (thumbnail_image_wide im W H Hw Hh HW HH Hfit ltac:(lia))
        as (-> & p & Hp & ->).
      destruct (quotient_bounds (W * height im) (width im) H Hw ltac:(lia)).
      lia.
Qed.

End ThumbnailFacts.

(** ** The normaliser *)

(** C3, as the code has it. The normaliser never enlarges a frame. A frame
    of size w by h that fits the target W by H keeps its size. Any other
    frame is shrunk with its aspect ratio kept: the dimension that binds
    takes the target's value and the other is the floor or the ceiling of
    the proportional size, and at least 1.  The scaled frame is at most W
    by H and it is pasted at the offsets ((W - scaled_w) // 2,
    (H - scaled_h) // 2) on a transparent W by H canvas. *)
Theorem normalizer_shrinks_to_fit_and_centers
    (resample : Image -> Z -> Z -> Z -> Z -> Sample)
    (s : Store) (image_input : nat) (im : Image) (W H : Z) :
  1 <= width im -> 1 <= height im -> 1 <= W -> 1 <= H ->
  s !! image_input = Some im ->
  let scaled := thumbnail_image resample im (W, H) in
  let offset_x := (W - width scaled) / 2 in
  let offset_y := (H - height scaled) / 2 in
  (exists (canvas : nat) (s' : Store),
     normalize_frame resample image_input (W, H) s
     = Done (canvas, offset_x, offset_y) s' /\
     s' !! canvas
     = Some (paste_image scaled (offset_x, offset_y)
               (new_image (W, H) (255, 255, 255, 0)))) /\
  (width im <= W -> height im <= H -> scaled = im) /\
  (1 <= width scaled <= W /\ 1 <= height scaled <= H) /\
  (~ (width im <= W /\ height im <= H) ->
   width im * H <= W * height im ->
   height scaled = H /\
   exists p, (p = H * width im / height im \/
              p = - (- (H * width im) / height im)) /\
             width scaled = Z.max p 1) /\
  (~ (width im <= W /\ height im <= H) ->
   W * height im < width im * H ->
   width scaled = W /\
   exists p, (p = W * height im / width im \/
              p = - (- (W * height im) / width im)) /\
             height scaled = Z.max p 1).
Proof.
  intros Hw Hh HW HH Him scaled offset_x offset_y.
  split; [|split; [|split; [|split]]].
  - destruct (normalize_frame_run resample s image_input im (W, H) Him)
      as (canvas & s' & Hrun & Hcanvas & _).
    exists canvas, s'. split; [exact Hrun | exact Hcanvas].
  - apply thumbnail_image_fits.
  - now apply thumbnail_image_bounds.
  - now apply thumbnail_image_tall.
  - now apply thumbnail_image_wide.
Qed.

(** ** The code at concrete inputs *)

(** C1, at a failing input. A 2 by 1 opaque red frame on a 4 by 1 canvas
    is pasted at offset 1, so the run occupies canvas columns 1 and 2 and
    the coordinates by canvas address are 1/4 and 2/4; the code adds the
    offset a second time and emits 2/4 and 3/4.  A 6 by 1 red frame on a
    10 by 1 canvas scanned with stride 7 gets the end coordinate 11/10,
    outside [0, 1]. *)
Theorem offsets_are_added_twice :
  List.map (fun x => alpha (load (frame_canvas nearest (solid 2 1 red) (4, 1)) x 0))
           [0; 1; 2; 3]
  = [0; 255; 255; 0] /\
  returned (get_drawing_commands_from_image nearest 0%nat (4, 1) 2 1 10
              {[ 0%nat := solid 2 1 red ]})
  = Some [red_run 4 1 1 2] /\
  red_run 4 1 1 2
  <> spec_line_command (4, 1) 2 1 2 0 (Some "#FF0000"%string) /\
  start_norm (red_run 4 1 1 2) = (truediv 2 4, truediv 0 1) /\
  end_norm (red_run 4 1 1 2) = (truediv 3 4, truediv 0 1) /\
  ~ (truediv 2 4 == truediv 1 4)%Q /\
  returned (get_drawing_commands_from_image nearest 0%nat (10, 1) 2 7 10
              {[ 0%nat := solid 6 1 red ]})
  = Some [red_run 10 2 7 9] /\
  end_norm (red_run 10 2 7 9) = (truediv 11 10, truediv 0 1) /\
  (1 < truediv 11 10)%Q.
Proof.
  repeat split; try (vm_compute; reflexivity).
  - vm_compute. discriminate.
  - vm_compute. discriminate.
Qed.

(** C2, counterexample. With stride 2 on a 4 by 1 red frame the visited
    columns are 0 and 2, and the run still open at the end of the row
    ends at column 3; on a 6 by 1 frame whose columns 0 to 3 are red and
    whose columns 4 and 5 are transparent, the run closed at visited
    column 4 ends at column 3 as well.  Neither end is a visited
    column. *)
Lemma run_end_is_not_a_visited_column :
  returned (get_drawing_commands_from_image nearest 0%nat (4, 1) 2 2 10
              {[ 0%nat := solid 4 1 red ]})
  = Some [red_run 4 0 0 3] /\
  ~ ends_on_visited_column 4 2 (red_run 4 0 0 3) /\
  returned (get_drawing_commands_from_image nearest 0%nat (6, 1) 2 2 10
              {[ 0%nat := left_red 6 1 4 ]})
  = Some [red_run 6 0 0 3] /\
  ~ ends_on_visited_column 6 2 (red_run 6 0 0 3).
Proof.
  split; [vm_compute; reflexivity|]. split.
  { intros (x & Hx & Heq). vm_compute in Hx.
    destruct Hx as [<-|[<-|[]]]; vm_compute in Heq; discriminate. }
  split; [vm_compute; reflexivity|].
  intros (x & Hx & Heq). vm_compute in Hx.
  destruct Hx as [<-|[<-|[<-|[]]]]; vm_compute in Heq; discriminate.
Qed.

(** C3, counterexample. An 80 by 40 frame fits a 100 by 100 target, so
    [thumbnail] leaves it at 80 by 40 and the offsets are (10, 30); the
    specification's formula gives 100 by 50 and (0, 25). *)
Lemma frame_80x40_is_not_enlarged :
  spec_scaled_size 80 40 (100, 100) = (100, 50) /\
  (width (thumbnail_image nearest (solid 80 40 red) (100, 100)),
   height (thumbnail_image nearest (solid 80 40 red) (100, 100)))
  = (80, 40) /\
  (width (thumbnail_image nearest (solid 80 40 red) (100, 100)),
   height (thumbnail_image nearest (solid 80 40 red) (100, 100)))
  <> spec_scaled_size 80 40 (100, 100) /\
  (exists (canvas : nat) (s' : Store),
     normalize_frame nearest 0%nat (100, 100) {[ 0%nat := solid 80 40 red ]}
     = Done (canvas, 10, 30) s') /\
  (10, 30) <> (0, 25).
Proof.
  split; [vm_compute; reflexivity|].
  split; [vm_compute; reflexivity|].
  split; [vm_compute; discriminate|].
  split; [|discriminate].
  destruct (normalize_frame_run nearest {[ 0%nat := solid 80 40 red ]} 0%nat
              (solid 80 40 red) (100, 100) (lookup_singleton_eq _ _))
    as (canvas & s' & Hrun & _).
  exists canvas, s'. exact Hrun.
Qed.

(** ** Instances *)

Lemma commands_are_ordered_horizontal_segments_witness :
  1 <= 1 /\ 1 <= fst (4, 1) /\
  In (red_run 4 0 0 1) (scan_canvas red_red_blue 4 1 0 0 (4, 1) 2 1 10) /\
  snd (start_norm (red_run 4 0 0 1)) = snd (end_norm (red_run 4 0 0 1)) /\
  (fst (start_norm (red_run 4 0 0 1)) <= fst (end_norm (red_run 4 0 0 1)))%Q /\
  thickness (red_run 4 0 0 1) = 2.
Proof.
  assert (Hq : 1 <= 1) by lia.
  assert (Hw : 1 <= fst (4, 1)) by (simpl; lia).
  assert (Hin : In (red_run 4 0 0 1)
                   (scan_canvas red_red_blue 4 1 0 0 (4, 1) 2 1 10))
    by (vm_compute; left; reflexivity).
  split; [exact Hq|]. split; [exact Hw|]. split; [exact Hin|].
  exact (proj1 (commands_are_ordered_horizontal_segments (4, 1) 2 1 10 Hq Hw)
           red_red_blue 4 1 0 0 (red_run 4 0 0 1) Hin).
Defined.

Lemma run_ends_at_pixel_before_break_witness :
  1 <= 2 /\
  In (red_run 4 0 0 3) (scan_canvas (load (solid 4 1 red)) 4 1 0 0 (4, 1) 2 2 10) /\
  exists (y start_x end_x : Z) (c : string),
    In y (visited_rows 1 2) /\
    In start_x (visited_columns 4 2) /\
    start_x <= end_x /\
    red_run 4 0 0 3 = line_command 0 0 (4, 1) 2 start_x end_x y (Some c) /\
    (forall x', In x' (visited_columns 4 2) -> start_x <= x' <= end_x ->
                opaque_color (load (solid 4 1 red)) 10 x' y = Some c) /\
    ((In (end_x + 1) (visited_columns 4 2) /\
      opaque_color (load (solid 4 1 red)) 10 (end_x + 1) y <> Some c) \/
     (end_x = 4 - 1 /\
      forall x', In x' (visited_columns 4 2) -> start_x <= x' ->
                 opaque_color (load (solid 4 1 red)) 10 x' y = Some c)) /\
    (2 = 1 -> In end_x (visited_columns 4 2)).
Proof.
  assert (Hq : 1 <= 2) by lia.
  assert (Hin : In (red_run 4 0 0 3)
                   (scan_canvas (load (solid 4 1 red)) 4 1 0 0 (4, 1) 2 2 10))
    by (vm_compute; left; reflexivity).
  split; [exact Hq|]. split; [exact Hin|].
  exact (run_ends_at_pixel_before_break (load (solid 4 1 red)) 4 1 0 0 (4, 1)
           2 2 10 (red_run 4 0 0 3) Hq Hin).
Defined.

Lemma normalizer_shrinks_to_fit_and_centers_witness :
  1 <= width (solid 80 40 red) /\ 1 <= height (solid 80 40 red) /\
  1 <= 100 /\ 1 <= 100 /\
  ({[ 0%nat := solid 80 40 red ]} : Store) !! 0%nat = Some (solid 80 40 red) /\
  thumbnail_image nearest (solid 80 40 red) (100, 100) = solid 80 40 red /\
  exists (canvas : nat) (s' : Store),
    normalize_frame nearest 0%nat (100, 100) {[ 0%nat := solid 80 40 red ]}
    = Done (canvas, 10, 30) s'.
Proof.
  assert (Hw : 1 <= width (solid 80 40 red)) by (simpl; lia).
  assert (Hh : 1 <= height (solid 80 40 red)) by (simpl; lia).
  assert (HW : 1 <= 100) by lia.
  assert (Hs : ({[ 0%nat := solid 80 40 red ]} : Store) !! 0%nat
               = Some (solid 80 40 red)) by (vm_compute; reflexivity).
  destruct (normalizer_shrinks_to_fit_and_centers nearest
              {[ 0%nat := solid 80 40 red ]} 0%nat (solid 80 40 red) 100 100
              Hw Hh HW HW Hs) as (Hrun & Hfit & _).
  repeat (split; [assumption|]). split.
  - apply Hfit; simpl; lia.
  - destruct Hrun as (canvas & s' & Hrun & _).
    exists canvas, s'. exact Hrun.
Defined.


Lemma five_frames_positive : positive_frames (gif_frames five_frames).
Proof.
  unfold positive_frames.
  repeat (apply List.Forall_cons; [simpl; lia|]). apply List.Forall_nil.
Defined.


Lemma fps_from_declared_delay_witness :
  1 <= fst (2, 1) /\ 1 <= snd (2, 1) /\
  positive_frames (gif_frames five_frames) /\ 1 <> 0 /\
  exists (out : OutputData) (s' : Store),
    gif_to_drawaria_json_processor nearest (Some five_frames) (2, 1) 2 1 10
      None ∅
    = Done (Some out) s' /\
    (original_fps (metadata out) == 10)%Q.
Proof.
  assert (Hw : 1 <= fst (2, 1)) by (simpl; lia).
  assert (Hh : 1 <= snd (2, 1)) by (simpl; lia).
  assert (Hq : 1 <> 0) by lia.
  split; [exact Hw|]. split; [exact Hh|].
  split; [exact five_frames_positive|]. split; [exact Hq|].
  destruct (fps_from_declared_delay nearest
              (mkGifFrame (solid 2 1 red) (Some 100))
              (List.tl (gif_frames five_frames)) (2, 1) 2 1 10 None ∅
              Hw Hh five_frames_positive Hq)
    as (out & s' & Hrun & _ & Hdelay & _).
  exists out, s'. split; [exact Hrun|].
  rewrite (Hdelay 100 eq_refl ltac:(lia)). vm_compute. reflexivity.
Defined.

Lemma encoder_is_deterministic_witness :
  ({[ 0%nat := solid 2 1 red ]} : Store) !! 0%nat = Some (solid 2 1 red) /\
  ({[ 5%nat := solid 2 1 red ]} : Store) !! 5%nat = Some (solid 2 1 red) /\
  returned (get_drawing_commands_from_image nearest 0%nat (4, 1) 2 1 10
              {[ 0%nat := solid 2 1 red ]})
  = returned (get_drawing_commands_from_image nearest 5%nat (4, 1) 2 1 10
                {[ 5%nat := solid 2 1 red ]}).
Proof.
  assert (H0 : ({[ 0%nat := solid 2 1 red ]} : Store) !! 0%nat
               = Some (solid 2 1 red)) by (vm_compute; reflexivity).
  assert (H5 : ({[ 5%nat := solid 2 1 red ]} : Store) !! 5%nat
               = Some (solid 2 1 red)) by (vm_compute; reflexivity).
  split; [exact H0|]. split; [exact H5|].
  exact (proj1 (encoder_is_deterministic nearest (4, 1) 2 1 10)
           _ _ _ _ _ H0 H5).
Defined.

Lemma metadata_agrees_with_frames_witness :
  exists (out : OutputData) (s' : Store),
    gif_to_drawaria_json_processor nearest (Some five_frames) (2, 1) 2 1 10
      None ∅
    = Done (Some out) s' /\
    frame_count (metadata out) = Z.of_nat (length (frames out)) /\
    total_commands_generated (metadata out)
    = Z.of_nat (list_sum (List.map (@length Command) (frames out))) /\
    processing_options (metadata out)
    = {| po_brush_thickness := 2;
         po_quality_factor := 1;
         po_transparency_threshold := 10;
         max_frames_processed := None |}.
Proof.
  assert (Hframes : gif_frames five_frames <> []) by (simpl; discriminate).
  assert (Hq : 1 <> 0) by lia.
  assert (Hw : 1 <= fst (2, 1)) by (simpl; lia).
  assert (Hh : 1 <= snd (2, 1)) by (simpl; lia).
  destruct (proj2 (metadata_agrees_with_frames nearest (Some five_frames)
                     (2, 1) 2 1 10 None ∅)
              five_frames eq_refl Hframes Hq Hw Hh five_frames_positive)
    as (out & s' & Hrun).
  exists out, s'. split; [exact Hrun|].
  exact (proj1 (metadata_agrees_with_frames nearest (Some five_frames)
                  (2, 1) 2 1 10 None ∅) out s' Hrun).
Defined.

Lemma input_image_unchanged_witness :
  ({[ 0%nat := solid 2 1 red ]} : Store) !! 0%nat = Some (solid 2 1 red) /\
  final_store (get_drawing_commands_from_image nearest 0%nat (4, 1) 2 1 10
                 {[ 0%nat := solid 2 1 red ]}) !! 0%nat
  = Some (solid 2 1 red).
Proof.
  assert (H0 : ({[ 0%nat := solid 2 1 red ]} : Store) !! 0%nat
               = Some (solid 2 1 red)) by (vm_compute; reflexivity).
  split; [exact H0|].
  exact (proj1 (input_image_unchanged nearest {[ 0%nat := solid 2 1 red ]}
                  0%nat (solid 2 1 red) (4, 1) 2 1 10 H0)).
Defined.

(** * Further properties of the encoder *)

(** ** Rows are scanned independently *)

Section RowFacts.

Variable pixels : Z -> Z -> Sample.
Variables img_width img_height : Z.
Variables offset_x offset_y : Z.
Variable output_size : Z * Z.
Variables brush_thickness quality_factor transparency_threshold : Z.

Local Abbreviation step :=
  (scan_pixel pixels offset_x offset_y output_size brush_thickness
     transparency_threshold).
Local Abbreviation row :=
  (scan_row pixels img_width offset_x offset_y output_size brush_thickness
     quality_factor transparency_threshold).

(** Commands already in the list are carried along unchanged. *)
Lemma scan_pixel_prefix (y x start_x : Z) (c : option string)
    (before commands : list Command) :
  step y (start_x, c, before ++ commands) x
  = (fst (step y (start_x, c, commands) x),
     before ++ snd (step y (start_x, c, commands) x)).
Proof.
  unfold scan_pixel. destruct (pixels x y) as [[[r g] b] a].
  destruct (transparency_threshold <? a).
  - destruct (start_x =? -1); [reflexivity|].
    destruct (color_differs _ c); simpl; [|reflexivity].
    now rewrite app_assoc.
  - destruct (start_x =? -1); simpl; [reflexivity|].
    now rewrite app_assoc.
Qed.

Lemma scan_pixels_prefix (y : Z) (columns : list Z) :
  forall (start_x : Z) (c : option string) (before commands : list Command),
    fold_left (step y) columns (start_x, c, before ++ commands)
    = (fst (fold_left (step y) columns (start_x, c, commands)),
       before ++ snd (fold_left (step y) columns (start_x, c, commands))).
Proof.
  induction columns as [|x columns IH]; intros start_x c before commands;
    cbn [fold_left]; [reflexivity|].
  rewrite scan_pixel_prefix.
  destruct (step y (start_x, c, commands) x) as [[start_x' c'] commands'].
  cbn [fst snd]. apply IH.
Qed.

Lemma scan_row_prefix (commands : list Command) (y : Z) :
  row commands y = commands ++ row [] y.
Proof.
  unfold scan_row.
  pose proof (scan_pixels_prefix y (py_range 0 img_width quality_factor)
                (-1) None commands []) as Hfold.
  rewrite app_nil_r in Hfold. rewrite Hfold.
  destruct (fold_left (step y) (py_range 0 img_width quality_factor)
              (-1, None, [])) as [[start_x c] new].
  simpl. destruct (start_x =? -1); simpl; [reflexivity|].
  now rewrite app_assoc.
Qed.

Lemma scan_rows_concat (rows : list Z) :
  forall commands : list Command,
    fold_left row rows commands
    = commands ++ List.concat (List.map (row []) rows).
Proof.
  induction rows as [|y rows IH]; intros commands; simpl.
  - now rewrite app_nil_r.
  - rewrite IH, scan_row_prefix. now rewrite app_assoc.
Qed.

End RowFacts.

(** X1. The run state does not cross rows: scanning a row appends to the
    commands so far the commands the row gives on its own, and the
    command list of a canvas is the concatenation, in row order, of the
    lists of its visited rows. *)
Theorem scan_canvas_concatenates_rows
    (pixels : Z -> Z -> Sample) (img_width img_height offset_x offset_y : Z)
    (output_size : Z * Z)
    (brush_thickness quality_factor transparency_threshold : Z) :
  (forall (commands : list Command) (y : Z),
     scan_row pixels img_width offset_x offset_y output_size brush_thickness
       quality_factor transparency_threshold commands y
     = commands ++
       scan_row pixels img_width offset_x offset_y output_size
         brush_thickness quality_factor transparency_threshold [] y) /\
  scan_canvas pixels img_width img_height offset_x offset_y output_size
    brush_thickness quality_factor transparency_threshold
  = List.concat
      (List.map
         (scan_row pixels img_width offset_x offset_y output_size
            brush_thickness quality_factor transparency_threshold [])
         (visited_rows img_height quality_factor)).
Proof.
  split.
  - intros commands y. apply scan_row_prefix.
  - unfold scan_canvas. now rewrite scan_rows_concat.
Qed.

(** ** The number of commands *)

Lemma scan_pixel_count
    (pixels : Z -> Z -> Sample) (offset_x offset_y : Z) (output_size : Z * Z)
    (brush_thickness transparency_threshold y x : Z) (st : ScanState) :
  (length (snd (scan_pixel pixels offset_x offset_y output_size
                  brush_thickness transparency_threshold y st x))
   + open_runs (fst (fst (scan_pixel pixels offset_x offset_y output_size
                            brush_thickness transparency_threshold y st x)))
   <= length (snd st) + open_runs (fst (fst st)) + 1)%nat.
Proof.
  destruct st as [[start_x c] commands]. unfold scan_pixel, open_runs.
  cbn [fst snd].
  destruct (pixels x y) as [[[r g] b] a].
  destruct (transparency_threshold <? a).
  - destruct (start_x =? -1) eqn:Hs; cbn [fst snd].
    + destruct (x =? -1); lia.
    + destruct (color_differs _ c); cbn [fst snd].
      * rewrite length_app. cbn [length]. destruct (x =? -1); lia.
      * rewrite Hs. lia.
  - destruct (start_x =? -1) eqn:Hs; cbn [fst snd negb].
    + rewrite Hs. lia.
    + rewrite length_app. cbn [length]. destruct (-1 =? -1); lia.
Qed.

Lemma scan_pixels_count
    (pixels : Z -> Z -> Sample) (offset_x offset_y : Z) (output_size : Z * Z)
    (brush_thickness transparency_threshold y : Z) (columns : list Z) :
  forall st : ScanState,
    (length (snd (fold_left (scan_pixel pixels offset_x offset_y output_size
                               brush_thickness transparency_threshold y)
                    columns st))
     + open_runs (fst (fst (fold_left
                              (scan_pixel pixels offset_x offset_y output_size
                                 brush_thickness transparency_threshold y)
                              columns st)))
     <= length (snd st) + open_runs (fst (fst st)) + length columns)%nat.
Proof.
  induction columns as [|x columns IH]; intros st; simpl; [lia|].
  specialize (IH (scan_pixel pixels offset_x offset_y output_size
                    brush_thickness transparency_threshold y st x)).
  pose proof (scan_pixel_count pixels offset_x offset_y output_size
                brush_thickness transparency_threshold y x st).
  lia.
Qed.

Lemma scan_row_count
    (pixels : Z -> Z -> Sample) (img_width offset_x offset_y : Z)
    (output_size : Z * Z)
    (brush_thickness quality_factor transparency_threshold : Z)
    (commands : list Command) (y : Z) :
  (length (scan_row pixels img_width offset_x offset_y output_size
             brush_thickness quality_factor transparency_threshold commands y)
   <= length commands + length (visited_columns img_width quality_factor))%nat.
Proof.
  unfold scan_row. fold (visited_columns img_width quality_factor).
  pose proof (scan_pixels_count pixels offset_x offset_y output_size
                brush_thickness transparency_threshold y
                (visited_columns img_width quality_factor) (-1, None, commands))
    as Hfold.
  destruct (fold_left _ (visited_columns img_width quality_factor) _)
    as [[start_x c] new].
  unfold close_row, open_runs in *. simpl in Hfold.
  destruct (start_x =? -1); simpl; [lia|].
  rewrite length_app. simpl. lia.
Qed.

Lemma visited_columns_length (stop step : Z) :
  1 <= step -> 0 <= stop ->
  Z.of_nat (length (py_range 0 stop step)) = (stop + step - 1) / step.
Proof.
  intros Hstep Hstop. unfold py_range, range_len.
  rewrite length_map, length_seq.
  assert (Hpos : (0 <? step) = true) by (apply Z.ltb_lt; lia).
  rewrite Hpos, Z.sub_0_r. apply Z2Nat.id. apply Z.div_pos; lia.
Qed.

(** X2. A canvas scanned with a stride of at least 1 yields at most one
    command per visited sample: at most ceil(height / stride) times
    ceil(width / stride) commands. *)
Theorem command_count_bound
    (pixels : Z -> Z -> Sample) (img_width img_height offset_x offset_y : Z)
    (output_size : Z * Z)
    (brush_thickness quality_factor transparency_threshold : Z) :
  1 <= quality_factor -> 0 <= img_width -> 0 <= img_height ->
  Z.of_nat (length (scan_canvas pixels img_width img_height offset_x offset_y
                      output_size brush_thickness quality_factor
                      transparency_threshold))
  <= ((img_height + quality_factor - 1) / quality_factor)
     * ((img_width + quality_factor - 1) / quality_factor).
Proof.
  intros Hq Hw Hh.
  rewrite <- (visited_columns_length img_width quality_factor Hq Hw).
  rewrite <- (visited_columns_length img_height quality_factor Hq Hh).
  fold (visited_columns img_width quality_factor).
  unfold scan_canvas.
  assert (Hrows : forall rows commands,
    (length (fold_left
               (scan_row pixels img_width offset_x offset_y output_size
                  brush_thickness quality_factor transparency_threshold)
               rows commands)
     <= length commands
        + length rows * length (visited_columns img_width quality_factor))%nat).
  { induction rows as [|y rows IH]; intros commands; simpl; [lia|].
    specialize (IH (scan_row pixels img_width offset_x offset_y output_size
                      brush_thickness quality_factor transparency_threshold
                      commands y)).
    pose proof (scan_row_count pixels img_width offset_x offset_y output_size
                  brush_thickness quality_factor transparency_threshold
                  commands y).
    lia. }
  specialize (Hrows (py_range 0 img_height quality_factor) []).
  simpl in Hrows. rewrite <- Nat2Z.inj_mul. lia.
Qed.

Lemma command_count_bound_witness :
  1 <= 1 /\ 0 <= 4 /\ 0 <= 1 /\
  Z.of_nat (length (scan_canvas red_red_blue 4 1 0 0 (4, 1) 2 1 10))
  <= ((1 + 1 - 1) / 1) * ((4 + 1 - 1) / 1).
Proof.
  assert (Hq : 1 <= 1) by lia.
  assert (Hw : 0 <= 4) by lia.
  assert (Hh : 0 <= 1) by lia.
  split; [exact Hq|]. split; [exact Hw|]. split; [exact Hh|].
  exact (command_count_bound red_red_blue 4 1 0 0 (4, 1) 2 1 10 Hq Hw Hh).
Defined.

(** ** The runs of a row *)

Lemma StronglySorted_snoc {A : Type} (R : A -> A -> Prop) (l : list A) (a : A) :
  StronglySorted R l -> Forall (fun b => R b a) l ->
  StronglySorted R (l ++ [a]).
Proof.
  induction l as [|b l IH]; intros Hs Hall; simpl.
  - constructor; constructor.
  - apply StronglySorted_inv in Hs. destruct Hs as [Hs Hb].
    apply Forall_cons_iff in Hall. destruct Hall as [Hba Hall].
    constructor; [now apply IH|].
    apply Forall_app. split; [exact Hb|]. constructor; [exact Hba|constructor].
Qed.

Lemma py_range_head (stop step : Z) :
  1 <= step -> 1 <= stop ->
  exists rest, py_range 0 stop step = 0 :: rest.
Proof.
  intros Hstep Hstop. unfold py_range, range_len.
  assert (Hpos : (0 <? step) = true) by (apply Z.ltb_lt; lia).
  rewrite Hpos.
  assert (Hlen : 1 <= (stop - 0 + step - 1) / step)
    by (apply Z.div_le_lower_bound; lia).
  destruct (Z.to_nat ((stop - 0 + step - 1) / step)) as [|n] eqn:Hn; [lia|].
  simpl. eexists. reflexivity.
Qed.

Section RunFacts.

Variable pixels : Z -> Z -> Sample.
Variables img_width : Z.
Variables offset_x offset_y : Z.
Variable output_size : Z * Z.
Variables brush_thickness quality_factor transparency_threshold : Z.

Local Abbreviation xs := (visited_columns img_width quality_factor).
Local Abbreviation colour := (opaque_color pixels transparency_threshold).
Local Abbreviation step :=
  (scan_pixel pixels offset_x offset_y output_size brush_thickness
     transparency_threshold).
Local Abbreviation cmd :=
  (run_command offset_x offset_y output_size brush_thickness).
Local Abbreviation run_inv := (run_invariant pixels transparency_threshold).
Local Abbreviation sound :=
  (run_sound pixels img_width quality_factor transparency_threshold).
Local Abbreviation runs_inv :=
  (runs_invariant pixels img_width quality_factor transparency_threshold).

(** Closing the open run at column [x]. *)
Lemma close_run_at (y x start_x : Z) (s : string) (seen rest : list Z)
    (runs : list Run) :
  1 <= quality_factor ->
  seen ++ x :: rest = xs ->
  In start_x seen ->
  (forall x', In x' seen -> start_x <= x' -> colour x' y = Some s) ->
  colour x y <> Some s ->
  runs_inv y seen (x :: rest) runs start_x (Some s) ->
  runs_separated (runs ++ [(start_x, x - 1, s)]) /\
  Forall (sound y) (runs ++ [(start_x, x - 1, s)]) /\
  (forall r z, In r (runs ++ [(start_x, x - 1, s)]) -> In z (x :: rest) ->
               run_end r < z) /\
  (forall (x' : Z) (c : string),
     In x' seen -> colour x' y = Some c ->
     exists r, In r (runs ++ [(start_x, x - 1, s)]) /\
               run_start r <= x' <= run_end r /\ run_color r = c).
Proof.
  intros Hq Hxs Hin Hrun Hbreak (Hsep & Hsound & Hfront & Hopen & Hcover).
  pose proof (py_range_sorted 0 img_width quality_factor Hq) as Hsorted.
  fold xs in Hsorted. rewrite <- Hxs in Hsorted.
  destruct (sorted_split _ _ _ Hsorted) as [Hbefore Hafter].
  rewrite List.Forall_forall in Hbefore, Hafter.
  assert (Hx : In x xs) by (rewrite <- Hxs; apply in_or_app; right; now left).
  assert (Hseen : forall z, In z seen -> In z xs)
    by (intros z Hz; rewrite <- Hxs; apply in_or_app; now left).
  assert (Hstart : start_x <> -1).
  { apply Hseen, (visited_nonneg _ _ _ Hq) in Hin. lia. }
  assert (Hlt : start_x < x) by (apply Hbefore; exact Hin).
  split; [|split; [|split]].
  - apply StronglySorted_snoc; [exact Hsep|].
    apply List.Forall_forall. intros r Hr. simpl.
    now apply Hopen.
  - apply Forall_app. split; [exact Hsound|].
    constructor; [|constructor].
    unfold run_sound, run_start, run_end, run_color. simpl.
    split; [now apply Hseen|].
    split; [apply (visited_nonneg _ _ _ Hq) in Hx; lia|].
    split.
    + intros x' Hx' Hle. apply Hrun; [|lia].
      rewrite <- Hxs in Hx'. apply in_app_or in Hx'.
      destruct Hx' as [Hx'|[Hx'|Hx']]; [exact Hx' | lia |].
      specialize (Hafter _ Hx'). lia.
    + right. replace (x - 1 + 1) with x by lia. split; assumption.
  - intros r z Hr Hz. apply in_app_or in Hr. destruct Hr as [Hr|[<-|[]]].
    + now apply Hfront.
    + unfold run_end. simpl. destruct Hz as [<-|Hz]; [lia|].
      specialize (Hafter _ Hz). lia.
  - intros x' c Hx' Hc.
    destruct (Hcover x' c Hx' Hc) as [(r & Hr & Hle & Hcol)|(_ & Hle & Hcol)].
    + exists r. split; [apply in_or_app; now left|]. split; assumption.
    + exists (start_x, x - 1, s). split; [apply in_or_app; right; now left|].
      unfold run_start, run_end, run_color. simpl.
      specialize (Hbefore _ Hx'). split; [lia|]. congruence.
Qed.

(** One iteration keeps the closed runs in step with the commands. *)
Lemma scan_pixel_runs (y x start_x : Z) (c : option string)
    (seen rest : list Z) (runs : list Run) :
  1 <= quality_factor ->
  seen ++ x :: rest = xs ->
  run_inv y seen (start_x, c, List.map (cmd y) runs) ->
  runs_inv y seen (x :: rest) runs start_x c ->
  exists runs',
    snd (step y (start_x, c, List.map (cmd y) runs) x)
    = List.map (cmd y) runs' /\
    runs_inv y (seen ++ [x]) rest runs'
      (fst (fst (step y (start_x, c, List.map (cmd y) runs) x)))
      (snd (fst (step y (start_x, c, List.map (cmd y) runs) x))).
Proof.
  intros Hq Hxs Hinv Hruns.
  pose proof (py_range_sorted 0 img_width quality_factor Hq) as Hsorted.
  fold xs in Hsorted. rewrite <- Hxs in Hsorted.
  destruct (sorted_split _ _ _ Hsorted) as [Hbefore Hafter].
  rewrite List.Forall_forall in Hbefore, Hafter.
  assert (Hx : In x xs) by (rewrite <- Hxs; apply in_or_app; right; now left).
  assert (Hxpos : x <> -1) by (apply (visited_nonneg _ _ _ Hq) in Hx; lia).
  assert (Hseen : forall z, In z seen -> In z xs)
    by (intros z Hz; rewrite <- Hxs; apply in_or_app; now left).
  assert (Hrest : forall z, In z rest -> In z (x :: rest)) by (intros; now right).
  pose proof Hruns as (Hsep & Hsound & Hfront & Hopen & Hcover).
  unfold scan_pixel, run_invariant in *.
  assert (Hcol : colour x y =
                 let '(r, g, b, a) := pixels x y in
                 if transparency_threshold <? a
                 then Some (rgb_to_hex (r, g, b)) else None) by reflexivity.
  destruct (pixels x y) as [[[r g] b] a].
  destruct (transparency_threshold <? a) eqn:Ha.
  - (* the sample passes the alpha test *)
    assert (Hnew : forall (x' : Z) (c' : string),
              In x' (seen ++ [x]) -> colour x' y = Some c' ->
              In x' seen \/ (x' = x /\ c' = rgb_to_hex (r, g, b))).
    { intros x' c' Hx' Hc'. apply in_app_or in Hx'.
      destruct Hx' as [Hx'|[<-|[]]]; [now left|]. right.
      split; [reflexivity|]. congruence. }
    destruct (start_x =? -1) eqn:Hs.
    + apply Z.eqb_eq in Hs. exists runs. cbn [fst snd].
      split; [reflexivity|].
      split; [exact Hsep|]. split; [exact Hsound|].
      split; [intros r0 z Hr0 Hz; apply Hfront; auto|].
      split; [intros _ r0 Hr0; apply Hfront; [exact Hr0 | now left]|].
      intros x' c' Hx' Hc'.
      destruct (Hnew x' c' Hx' Hc') as [Hold|[-> ->]].
      * destruct (Hcover x' c' Hold Hc') as [Hl|(Hne & _)]; [now left|].
        contradiction.
      * right. split; [exact Hxpos|]. split; [lia | reflexivity].
    + apply Z.eqb_neq in Hs.
      destruct Hinv as [[Hinv _]|(s & -> & Hin & Hrun)]; [contradiction|].
      destruct (color_differs (rgb_to_hex (r, g, b)) (Some s)) eqn:Hd.
      * apply color_differs_spec in Hd.
        assert (Hbreak : colour x y <> Some s) by (rewrite Hcol; congruence).
        destruct (close_run_at y x start_x s seen rest runs Hq Hxs Hin Hrun
                    Hbreak Hruns) as (Hsep' & Hsound' & Hfront' & Hcover').
        exists (runs ++ [(start_x, x - 1, s)]). cbn [fst snd].
        split; [now rewrite List.map_app|].
        split; [exact Hsep'|]. split; [exact Hsound'|].
        split; [intros r0 z Hr0 Hz; apply Hfront'; auto|].
        split; [intros _ r0 Hr0; apply Hfront'; [exact Hr0 | now left]|].
        intros x' c' Hx' Hc'.
        destruct (Hnew x' c' Hx' Hc') as [Hold|[-> ->]].
        -- left. now apply Hcover'.
        -- right. split; [exact Hxpos|]. split; [lia | reflexivity].
      * assert (Hsame : rgb_to_hex (r, g, b) = s).
        { destruct (String.eqb_spec (rgb_to_hex (r, g, b)) s) as [E|E];
            [exact E|]. apply color_differs_spec in E. congruence. }
        exists runs. cbn [fst snd].
        split; [reflexivity|].
        split; [exact Hsep|]. split; [exact Hsound|].
        split; [intros r0 z Hr0 Hz; apply Hfront; auto|].
        split; [exact Hopen|].
        intros x' c' Hx' Hc'.
        destruct (Hnew x' c' Hx' Hc') as [Hold|[-> ->]].
        -- now apply Hcover.
        -- right. split; [exact Hs|].
           specialize (Hbefore _ Hin). split; [lia|]. now rewrite Hsame.
  - (* the sample is transparent *)
    assert (Hnew : forall (x' : Z) (c' : string),
              In x' (seen ++ [x]) -> colour x' y = Some c' -> In x' seen).
    { intros x' c' Hx' Hc'. apply in_app_or in Hx'.
      destruct Hx' as [Hx'|[<-|[]]]; [exact Hx'|]. congruence. }
    destruct (start_x =? -1) eqn:Hs; cbn [negb].
    + exists runs. cbn [fst snd].
      split; [reflexivity|].
      split; [exact Hsep|]. split; [exact Hsound|].
      split; [intros r0 z Hr0 Hz; apply Hfront; auto|].
      split; [exact Hopen|].
      intros x' c' Hx' Hc'. apply Hcover; [|exact Hc']. eapply Hnew; eauto.
    + apply Z.eqb_neq in Hs.
      destruct Hinv as [[Hinv _]|(s & -> & Hin & Hrun)]; [contradiction|].
      assert (Hbreak : colour x y <> Some s) by (rewrite Hcol; discriminate).
      destruct (close_run_at y x start_x s seen rest runs Hq Hxs Hin Hrun
                  Hbreak Hruns) as (Hsep' & Hsound' & Hfront' & Hcover').
      exists (runs ++ [(start_x, x - 1, s)]). cbn [fst snd].
      split; [now rewrite List.map_app|].
      split; [exact Hsep'|]. split; [exact Hsound'|].
      split; [intros r0 z Hr0 Hz; apply Hfront'; auto|].
      split; [intros Hne; now contradiction Hne|].
      intros x' c' Hx' Hc'. left. apply Hcover'; [|exact Hc'].
      eapply Hnew; eauto.
Qed.

End RunFacts.

Section RowRuns.

Variable pixels : Z -> Z -> Sample.
Variables img_width : Z.
Variables offset_x offset_y : Z.
Variable output_size : Z * Z.
Variables brush_thickness quality_factor transparency_threshold : Z.

Local Abbreviation xs := (visited_columns img_width quality_factor).
Local Abbreviation colour := (opaque_color pixels transparency_threshold).
Local Abbreviation step :=
  (scan_pixel pixels offset_x offset_y output_size brush_thickness
     transparency_threshold).
Local Abbreviation cmd :=
  (run_command offset_x offset_y output_size brush_thickness).
Local Abbreviation run_inv := (run_invariant pixels transparency_threshold).
Local Abbreviation sound :=
  (run_sound pixels img_width quality_factor transparency_threshold).
Local Abbreviation cover :=
  (runs_cover pixels transparency_threshold).
Local Abbreviation runs_inv :=
  (runs_invariant pixels img_width quality_factor transparency_threshold).

Lemma scan_pixels_runs (y : Z) (rest : list Z) :
  forall (seen : list Z) (start_x : Z) (c : option string) (runs : list Run),
    1 <= quality_factor ->
    seen ++ rest = xs ->
    run_inv y seen (start_x, c, List.map (cmd y) runs) ->
    runs_inv y seen rest runs start_x c ->
    exists (runs' : list Run) (start_x' : Z) (c' : option string),
      fold_left (step y) rest (start_x, c, List.map (cmd y) runs)
      = (start_x', c', List.map (cmd y) runs') /\
      run_inv y xs (start_x', c', List.map (cmd y) runs') /\
      runs_inv y xs [] runs' start_x' c'.
Proof.
  induction rest as [|x rest IH]; intros seen start_x c runs Hq Hxs Hinv Hruns.
  - rewrite app_nil_r in Hxs. subst seen.
    exists runs, start_x, c. cbn [fold_left]. auto.
  - cbn [fold_left].
    destruct (scan_pixel_step pixels img_width offset_x offset_y output_size
                brush_thickness quality_factor transparency_threshold
                y x seen rest _ Hq Hxs Hinv) as [Hinv1 _].
    destruct (scan_pixel_runs pixels img_width offset_x offset_y output_size
                brush_thickness quality_factor transparency_threshold
                y x start_x c seen rest runs Hq Hxs Hinv Hruns)
      as (runs1 & Hcmds1 & Hruns1).
    destruct (step y (start_x, c, List.map (cmd y) runs) x)
      as [[start_x1 c1] commands1].
    cbn [fst snd] in Hcmds1, Hruns1. subst commands1.
    apply (IH (seen ++ [x])); auto.
    rewrite <- app_assoc. exact Hxs.
Qed.

Lemma scan_row_runs (y : Z) :
  1 <= quality_factor ->
  exists runs : list Run,
    scan_row pixels img_width offset_x offset_y output_size brush_thickness
      quality_factor transparency_threshold [] y
    = List.map (cmd y) runs /\
    runs_separated runs /\
    Forall (sound y) runs /\
    cover y xs runs.
Proof.
  intros Hq. unfold scan_row. fold xs.
  destruct (scan_pixels_runs y xs [] (-1) None [] Hq eq_refl)
    as (runs & start_x & c & Hfold & Hinv & Hsep & Hsound & _ & Hopen & Hcover).
  { left. split; reflexivity. }
  { split; [constructor|]. split; [constructor|].
    split; [intros r x []|]. split; [intros _ r []|]. intros x c' []. }
  cbn [List.map] in Hfold. rewrite Hfold. unfold close_row.
  destruct (start_x =? -1) eqn:Hs; cbn [negb].
  - apply Z.eqb_eq in Hs. exists runs.
    split; [reflexivity|]. split; [exact Hsep|]. split; [exact Hsound|].
    intros x c' Hx Hc'.
    destruct (Hcover x c' Hx Hc') as [Hl|(Hne & _)]; [exact Hl|contradiction].
  - apply Z.eqb_neq in Hs.
    destruct Hinv as [[Hinv _]|(s & -> & Hin & Hrun)]; [contradiction|].
    pose proof (visited_nonneg _ _ _ Hq Hin) as Hb.
    exists (runs ++ [(start_x, img_width - 1, s)]).
    split; [now rewrite List.map_app|].
    split; [|split].
    + apply StronglySorted_snoc; [exact Hsep|].
      apply List.Forall_forall. intros r Hr. simpl. now apply Hopen.
    + apply Forall_app. split; [exact Hsound|].
      constructor; [|constructor].
      unfold run_sound, run_start, run_end, run_color. simpl.
      split; [exact Hin|]. split; [lia|]. split; [|now left].
      intros x Hx Hle. apply Hrun; [exact Hx | lia].
    + intros x c' Hx Hc'.
      destruct (Hcover x c' Hx Hc') as [(r & Hr & Hle & Hcol)|(_ & Hle & Hcol)].
      * exists r. split; [apply in_or_app; now left|]. split; assumption.
      * exists (start_x, img_width - 1, s).
        split; [apply in_or_app; right; now left|].
        unfold run_start, run_end, run_color. simpl.
        apply (visited_nonneg _ _ _ Hq) in Hx. split; [lia|]. congruence.
Qed.

(** A run stays open across samples of its colour. *)
Lemma scan_pixels_same_color (y start_x : Z) (s : string)
    (commands : list Command) (columns : list Z) :
  start_x <> -1 ->
  (forall x, In x columns -> colour x y = Some s) ->
  fold_left (step y) columns (start_x, Some s, commands)
  = (start_x, Some s, commands).
Proof.
  intros Hs. induction columns as [|x columns IH]; intros Hall;
    cbn [fold_left]; [reflexivity|].
  assert (Hx : colour x y = Some s) by (apply Hall; now left).
  assert (Hstep : step y (start_x, Some s, commands) x
                  = (start_x, Some s, commands)).
  { unfold scan_pixel, opaque_color in *.
    destruct (pixels x y) as [[[r g] b] a].
    destruct (transparency_threshold <? a); [|discriminate].
    assert (Hhex : rgb_to_hex (r, g, b) = s) by congruence.
    apply Z.eqb_neq in Hs. rewrite Hs, Hhex.
    unfold color_differs. now rewrite String.eqb_refl. }
  rewrite Hstep. apply IH. intros x' Hx'. apply Hall. now right.
Qed.

End RowRuns.

(** X3. With a stride of at least 1 the commands of a row are those of a
    list of runs that partitions the row's opaque samples: each run
    starts at a visited column, lies inside the row, holds visited
    samples of its colour only and cannot be extended to the right; each
    run ends before the next starts; and every visited sample whose alpha
    exceeds the threshold lies in a run of its colour. *)
Theorem row_is_partitioned_into_runs
    (pixels : Z -> Z -> Sample) (img_width offset_x offset_y : Z)
    (output_size : Z * Z)
    (brush_thickness quality_factor transparency_threshold y : Z) :
  1 <= quality_factor ->
  exists runs : list Run,
    scan_row pixels img_width offset_x offset_y output_size brush_thickness
      quality_factor transparency_threshold [] y
    = List.map (run_command offset_x offset_y output_size brush_thickness y)
               runs /\
    runs_separated runs /\
    Forall (run_sound pixels img_width quality_factor transparency_threshold y)
           runs /\
    runs_cover pixels transparency_threshold y
      (visited_columns img_width quality_factor) runs.
Proof. intros Hq. now apply scan_row_runs. Qed.

Lemma row_is_partitioned_into_runs_witness :
  1 <= 1 /\
  exists runs : list Run,
    scan_row red_red_blue 4 0 0 (4, 1) 2 1 10 [] 0
    = List.map (run_command 0 0 (4, 1) 2 0) runs /\
    runs_separated runs /\
    Forall (run_sound red_red_blue 4 1 10 0) runs /\
    runs_cover red_red_blue 10 0 (visited_columns 4 1) runs.
Proof.
  assert (Hq : 1 <= 1) by lia.
  split; [exact Hq|].
  exact (row_is_partitioned_into_runs red_red_blue 4 0 0 (4, 1) 2 1 10 0 Hq).
Defined.

(** X4. Merging: when every visited sample of a row passes the alpha test
    with one and the same colour, the row contributes exactly one
    command, from column 0 to the last pixel column of the row. *)
Theorem uniform_row_is_one_command
    (pixels : Z -> Z -> Sample) (img_width offset_x offset_y : Z)
    (output_size : Z * Z)
    (brush_thickness quality_factor transparency_threshold y : Z)
    (c : string) (commands : list Command) :
  1 <= quality_factor -> 1 <= img_width ->
  (forall x, In x (visited_columns img_width quality_factor) ->
             opaque_color pixels transparency_threshold x y = Some c) ->
  scan_row pixels img_width offset_x offset_y output_size brush_thickness
    quality_factor transparency_threshold commands y
  = commands ++
    [line_command offset_x offset_y output_size brush_thickness
       0 (img_width - 1) y (Some c)].
Proof.
  intros Hq Hw Hall. unfold scan_row.
  unfold visited_columns in Hall.
  destruct (py_range_head img_width quality_factor Hq Hw) as (rest & Hrange).
  rewrite Hrange in *. cbn [fold_left].
  assert (H0 : opaque_color pixels transparency_threshold 0 y = Some c)
    by (apply Hall; now left).
  assert (Hfirst : scan_pixel pixels offset_x offset_y output_size
                     brush_thickness transparency_threshold y
                     (-1, None, commands) 0
                   = (0, Some c, commands)).
  { unfold scan_pixel, opaque_color in *.
    destruct (pixels 0 y) as [[[r g] b] a].
    destruct (transparency_threshold <? a); [|discriminate].
    assert (Hhex : rgb_to_hex (r, g, b) = c) by congruence.
    now rewrite Hhex. }
  rewrite Hfirst.
  rewrite scan_pixels_same_color;
    [| discriminate | intros x Hx; apply Hall; now right].
  reflexivity.
Qed.

Lemma uniform_row_is_one_command_witness :
  1 <= 2 /\ 1 <= 4 /\
  (forall x, In x (visited_columns 4 2) ->
             opaque_color (load (solid 4 1 red)) 10 x 0
             = Some "#FF0000"%string) /\
  scan_row (load (solid 4 1 red)) 4 0 0 (4, 1) 2 2 10 [] 0
  = [] ++ [line_command 0 0 (4, 1) 2 0 (4 - 1) 0 (Some "#FF0000"%string)].
Proof.
  assert (Hq : 1 <= 2) by lia.
  assert (Hw : 1 <= 4) by lia.
  assert (Hall : forall x, In x (visited_columns 4 2) ->
             opaque_color (load (solid 4 1 red)) 10 x 0
             = Some "#FF0000"%string)
    by (intros x Hx; vm_compute; reflexivity).
  split; [exact Hq|]. split; [exact Hw|]. split; [exact Hall|].
  exact (uniform_row_is_one_command (load (solid 4 1 red)) 4 0 0 (4, 1) 2 2 10
           0 "#FF0000"%string [] Hq Hw Hall).
Defined.

(** ** The colour codec *)

Lemma format_02x_byte (n : Z) :
  0 <= n < 256 ->
  format_02x n
  = String (hex_digit (n / 16)) (String (hex_digit (n mod 16)) EmptyString).
Proof.
  intros Hn. unfold format_02x.
  assert (Hneg : (n <? 0) = false) by (apply Z.ltb_ge; lia).
  rewrite Hneg.
  destruct (n <? 16) eqn:Hsmall.
  - apply Z.ltb_lt in Hsmall.
    rewrite Z.div_small, Z.mod_small by lia. reflexivity.
  - apply Z.ltb_ge in Hsmall.
    assert (Hlog : 4 <= Z.log2 n) by (apply Z.log2_le_pow2; simpl; lia).
    destruct (Z.to_nat (Z.log2 n)) as [|fuel] eqn:Hfuel; [lia|].
    cbn [hex_digits].
    assert (Hbig : (n <? 16) = false) by (apply Z.ltb_ge; lia).
    rewrite Hbig.
    assert (Hq : 0 <= n / 16 < 16)
      by (split; [apply Z.div_pos; lia | apply Z.div_lt_upper_bound; lia]).
    destruct fuel as [|fuel]; cbn [hex_digits].
    + rewrite (Z.mod_small (n / 16)) by lia. reflexivity.
    + assert (Hq16 : (n / 16 <? 16) = true) by (apply Z.ltb_lt; lia).
      now rewrite Hq16.
Qed.

(** The character code of an upper-cased hexadecimal digit. *)
Lemma upper_hex_digit_code (d : Z) :
  0 <= d < 16 ->
  Z.of_nat (nat_of_ascii (upper_ascii (hex_digit d)))
  = if d <? 10 then 48 + d else 55 + d.
Proof.
  intros Hd.
  assert (Hcases : d = 0 \/ d = 1 \/ d = 2 \/ d = 3 \/ d = 4 \/ d = 5 \/
                   d = 6 \/ d = 7 \/ d = 8 \/ d = 9 \/ d = 10 \/ d = 11 \/
                   d = 12 \/ d = 13 \/ d = 14 \/ d = 15) by lia.
  repeat (destruct Hcases as [->|Hcases]; [reflexivity|]).
  subst d. reflexivity.
Qed.

Lemma upper_hex_digit_inj (d1 d2 : Z) :
  0 <= d1 < 16 -> 0 <= d2 < 16 ->
  upper_ascii (hex_digit d1) = upper_ascii (hex_digit d2) -> d1 = d2.
Proof.
  intros H1 H2 Heq.
  pose proof (upper_hex_digit_code d1 H1) as E1.
  pose proof (upper_hex_digit_code d2 H2) as E2.
  rewrite Heq in E1. rewrite E1 in E2.
  destruct (d1 <? 10) eqn:L1; destruct (d2 <? 10) eqn:L2;
    try apply Z.ltb_lt in L1; try apply Z.ltb_ge in L1;
    try apply Z.ltb_lt in L2; try apply Z.ltb_ge in L2; lia.
Qed.

Lemma byte_digits (n : Z) :
  0 <= n < 256 -> 0 <= n / 16 < 16 /\ 0 <= n mod 16 < 16.
Proof.
  intros Hn. split.
  - split; [apply Z.div_pos; lia | apply Z.div_lt_upper_bound; lia].
  - apply Z.mod_pos_bound. lia.
Qed.

(** The string for three channels between 0 and 255, character by
    character. *)
Lemma rgb_to_hex_bytes (r g b : Z) :
  0 <= r < 256 -> 0 <= g < 256 -> 0 <= b < 256 ->
  rgb_to_hex (r, g, b)
  = String "#"%char
      (String (upper_ascii (hex_digit (r / 16)))
      (String (upper_ascii (hex_digit (r mod 16)))
      (String (upper_ascii (hex_digit (g / 16)))
      (String (upper_ascii (hex_digit (g mod 16)))
      (String (upper_ascii (hex_digit (b / 16)))
      (String (upper_ascii (hex_digit (b mod 16))) EmptyString)))))).
Proof.
  intros Hr Hg Hb. unfold rgb_to_hex.
  rewrite !format_02x_byte by assumption. reflexivity.
Qed.

(** X5. For channels between 0 and 255 the colour string has seven
    characters: the sign # and six characters that are decimal digits or
    capital letters A to F. *)
Theorem rgb_to_hex_is_hash_and_six_hex_digits (r g b : Z) :
  0 <= r < 256 -> 0 <= g < 256 -> 0 <= b < 256 ->
  exists (c1 c2 c3 c4 c5 c6 : ascii),
    rgb_to_hex (r, g, b)
    = String "#"%char (String c1 (String c2 (String c3 (String c4
        (String c5 (String c6 EmptyString)))))) /\
    Forall (fun c => (48 <= nat_of_ascii c <= 57)%nat \/
                     (65 <= nat_of_ascii c <= 70)%nat)
           [c1; c2; c3; c4; c5; c6].
Proof.
  intros Hr Hg Hb.
  rewrite (rgb_to_hex_bytes r g b Hr Hg Hb).
  do 6 eexists. split; [reflexivity|].
  destruct (byte_digits r Hr) as [Hr1 Hr2].
  destruct (byte_digits g Hg) as [Hg1 Hg2].
  destruct (byte_digits b Hb) as [Hb1 Hb2].
  assert (Hchar : forall d, 0 <= d < 16 ->
            (48 <= nat_of_ascii (upper_ascii (hex_digit d)) <= 57)%nat \/
            (65 <= nat_of_ascii (upper_ascii (hex_digit d)) <= 70)%nat).
  { intros d Hd. pose proof (upper_hex_digit_code d Hd) as Hcode.
    destruct (d <? 10) eqn:L;
      [apply Z.ltb_lt in L | apply Z.ltb_ge in L]; lia. }
  repeat (apply List.Forall_cons; [now apply Hchar|]). apply List.Forall_nil.
Qed.

Lemma rgb_to_hex_is_hash_and_six_hex_digits_witness :
  0 <= 255 < 256 /\ 0 <= 10 < 256 /\ 0 <= 171 < 256 /\
  exists (c1 c2 c3 c4 c5 c6 : ascii),
    rgb_to_hex (255, 10, 171)
    = String "#"%char (String c1 (String c2 (String c3 (String c4
        (String c5 (String c6 EmptyString)))))) /\
    Forall (fun c => (48 <= nat_of_ascii c <= 57)%nat \/
                     (65 <= nat_of_ascii c <= 70)%nat)
           [c1; c2; c3; c4; c5; c6].
Proof.
  assert (Hr : 0 <= 255 < 256) by lia.
  assert (Hg : 0 <= 10 < 256) by lia.
  assert (Hb : 0 <= 171 < 256) by lia.
  split; [exact Hr|]. split; [exact Hg|]. split; [exact Hb|].
  exact (rgb_to_hex_is_hash_and_six_hex_digits 255 10 171 Hr Hg Hb).
Defined.

(** X6. On channels between 0 and 255 the colour string determines the
    three channels: two samples get the same string only if their red,
    green and blue values are equal. *)
Theorem rgb_to_hex_injective (r g b r' g' b' : Z) :
  0 <= r < 256 -> 0 <= g < 256 -> 0 <= b < 256 ->
  0 <= r' < 256 -> 0 <= g' < 256 -> 0 <= b' < 256 ->
  rgb_to_hex (r, g, b) = rgb_to_hex (r', g', b') ->
  (r, g, b) = (r', g', b').
Proof.
  intros Hr Hg Hb Hr' Hg' Hb' Heq.
  rewrite (rgb_to_hex_bytes r g b Hr Hg Hb) in Heq.
  rewrite (rgb_to_hex_bytes r' g' b' Hr' Hg' Hb') in Heq.
  injection Heq as E1 E2 E3 E4 E5 E6.
  destruct (byte_digits r Hr), (byte_digits g Hg), (byte_digits b Hb).
  destruct (byte_digits r' Hr'), (byte_digits g' Hg'), (byte_digits b' Hb').
  apply upper_hex_digit_inj in E1, E2, E3, E4, E5, E6; try assumption.
  assert (Hjoin : forall n m, n / 16 = m / 16 -> n mod 16 = m mod 16 -> n = m).
  { intros n m Hd Hm.
    rewrite (Z.div_mod n 16), (Z.div_mod m 16) by lia. now rewrite Hd, Hm. }
  rewrite (Hjoin r r' E1 E2), (Hjoin g g' E3 E4), (Hjoin b b' E5 E6).
  reflexivity.
Qed.

Lemma rgb_to_hex_injective_witness :
  0 <= 255 < 256 /\ 0 <= 10 < 256 /\ 0 <= 171 < 256 /\
  rgb_to_hex (255, 10, 171) = rgb_to_hex (255, 10, 171) /\
  (255, 10, 171) = (255, 10, 171).
Proof.
  assert (Hr : 0 <= 255 < 256) by lia.
  assert (Hg : 0 <= 10 < 256) by lia.
  assert (Hb : 0 <= 171 < 256) by lia.
  assert (Heq : rgb_to_hex (255, 10, 171) = rgb_to_hex (255, 10, 171))
    by reflexivity.
  split; [exact Hr|]. split; [exact Hg|]. split; [exact Hb|].
  split; [exact Heq|].
  exact (rgb_to_hex_injective 255 10 171 255 10 171 Hr Hg Hb Hr Hg Hb Heq).
Defined.

(** ** Strides that are not positive *)

Lemma py_range_negative_step (stop step : Z) :
  step < 0 -> 0 <= stop -> py_range 0 stop step = [].
Proof.
  intros Hstep Hstop. unfold py_range, range_len.
  assert (Hneg : (0 <? step) = false) by (apply Z.ltb_ge; lia).
  rewrite Hneg.
  assert (Hlen : (0 - stop - step - 1) / - step < 1)
    by (apply Z.div_lt_upper_bound; lia).
  replace (Z.to_nat ((0 - stop - step - 1) / - step)) with O by lia.
  reflexivity.
Qed.

(** X7. A negative quality factor is not rejected: for an output size and
    a frame of positive width and height the row range is empty and the
    encoder returns an empty command list. *)
Theorem negative_stride_returns_no_commands
    (resample : Image -> Z -> Z -> Z -> Z -> Sample)
    (s : Store) (image_input : nat) (im : Image) (output_size : Z * Z)
    (brush_thickness quality_factor transparency_threshold : Z) :
  quality_factor < 0 ->
  1 <= fst output_size ->
  1 <= snd output_size ->
  1 <= width im ->
  1 <= height im ->
  s !! image_input = Some im ->
  returned (get_drawing_commands_from_image resample image_input output_size
              brush_thickness quality_factor transparency_threshold s)
  = Some [].
Proof.
  intros Hq _ Hh _ _ Him.
  rewrite (get_drawing_commands_returned resample s image_input im) by exact Him.
  assert (Hz : (quality_factor =? 0) = false) by (apply Z.eqb_neq; lia).
  rewrite Hz. unfold frame_commands, scan_canvas.
  change (height (frame_canvas resample im output_size)) with (snd output_size).
  now rewrite py_range_negative_step by lia.
Qed.

Lemma negative_stride_returns_no_commands_witness :
  -1 < 0 /\ 1 <= fst (4, 1) /\ 1 <= snd (4, 1) /\
  1 <= width (solid 2 1 red) /\ 1 <= height (solid 2 1 red) /\
  ({[ 0%nat := solid 2 1 red ]} : Store) !! 0%nat = Some (solid 2 1 red) /\
  returned (get_drawing_commands_from_image nearest 0%nat (4, 1) 2 (-1) 10
              {[ 0%nat := solid 2 1 red ]})
  = Some [].
Proof.
  assert (Hq : -1 < 0) by lia.
  assert (Hw : 1 <= fst (4, 1)) by (simpl; lia).
  assert (Hh : 1 <= snd (4, 1)) by (simpl; lia).
  assert (Hiw : 1 <= width (solid 2 1 red)) by (simpl; lia).
  assert (Hih : 1 <= height (solid 2 1 red)) by (simpl; lia).
  assert (H0 : ({[ 0%nat := solid 2 1 red ]} : Store) !! 0%nat
               = Some (solid 2 1 red)) by (vm_compute; reflexivity).
  split; [exact Hq|]. split; [exact Hw|]. split; [exact Hh|].
  split; [exact Hiw|]. split; [exact Hih|]. split; [exact H0|].
  exact (negative_stride_returns_no_commands nearest
           {[ 0%nat := solid 2 1 red ]} 0%nat (solid 2 1 red) (4, 1) 2 (-1) 10
           Hq Hw Hh Hiw Hih H0).
Defined.

(** X8. With a quality factor of 0, an output size and frames of positive
    width and height, the processor raises [ValueError] while encoding
    the first frame and builds no result, unless the frame cap is zero or
    negative: then no frame is encoded and it returns a result without
    frames. *)
Theorem zero_stride_raises_unless_capped
    (resample : Image -> Z -> Z -> Z -> Z -> Sample)
    (file : GifFile) (output_size : Z * Z)
    (brush_thickness transparency_threshold : Z)
    (max_frames : option Z) (s : Store) :
  gif_frames file <> [] ->
  (cap_reached max_frames 0 = false ->
   1 <= fst output_size -> 1 <= snd output_size ->
   positive_frames (gif_frames file) ->
   exists s' : Store,
     gif_to_drawaria_json_processor resample (Some file) output_size
       brush_thickness 0 transparency_threshold max_frames s
     = Raised ValueError s') /\
  (forall m : Z, max_frames = Some m -> m <= 0 ->
   exists (out : OutputData) (s' : Store),
     gif_to_drawaria_json_processor resample (Some file) output_size
       brush_thickness 0 transparency_threshold max_frames s
     = Done (Some out) s' /\
     frames out = [] /\
     frame_count (metadata out) = 0 /\
     total_commands_generated (metadata out) = 0).
Proof.
  intros Hframes.
  destruct (gif_frames file) as [|first rest] eqn:Hfile; [congruence|].
  set (gif := fresh (dom s)).
  assert (Hgif : (<[gif := frame_image first]> s) !! gif
                 = Some (frame_image first))
    by apply lookup_insert_eq.
  split.
  - intros Hcap _ _ _.
    destruct (get_drawing_commands_outcome resample
                (<[gif := frame_image first]> (<[gif := frame_image first]> s))
                gif (frame_image first) output_size
                brush_thickness 0 transparency_threshold
                (lookup_insert_eq _ _ _)) as (s' & _ & Hrun).
    exists s'.
    unfold gif_to_drawaria_json_processor, Image_open. rewrite Hfile.
    unfold bind at 1. unfold bind at 1. unfold alloc, ret at 1. fold gif.
    unfold bind at 1. rewrite Hfile. cbn [process_frames].
    unfold bind at 1. rewrite (seek_run gif _ first _ Hgif).
    rewrite Hcap. unfold bind. rewrite Hrun. reflexivity.
  - intros m -> Hm.
    eexists _, _.
    unfold gif_to_drawaria_json_processor, Image_open. rewrite Hfile.
    unfold bind at 1. unfold bind at 1. unfold alloc, ret at 1. fold gif.
    unfold bind at 1. rewrite Hfile. cbn [process_frames].
    unfold bind at 1. rewrite (seek_run gif _ first _ Hgif).
    unfold cap_reached.
    assert (Hcap : (m <=? 0) = true) by (apply Z.leb_le; lia).
    rewrite Hcap. unfold ret. cbn. auto.
Qed.

Lemma zero_stride_raises_unless_capped_witness :
  gif_frames five_frames <> [] /\
  cap_reached None 0 = false /\
  1 <= fst (2, 1) /\ 1 <= snd (2, 1) /\
  positive_frames (gif_frames five_frames) /\
  exists s' : Store,
    gif_to_drawaria_json_processor nearest (Some five_frames) (2, 1) 2 0 10
      None ∅
    = Raised ValueError s'.
Proof.
  assert (Hframes : gif_frames five_frames <> []) by (simpl; discriminate).
  assert (Hcap : cap_reached None 0 = false) by reflexivity.
  assert (Hw : 1 <= fst (2, 1)) by (simpl; lia).
  assert (Hh : 1 <= snd (2, 1)) by (simpl; lia).
  split; [exact Hframes|]. split; [exact Hcap|].
  split; [exact Hw|]. split; [exact Hh|].
  split; [exact five_frames_positive|].
  exact (proj1 (zero_stride_raises_unless_capped nearest five_frames (2, 1)
                  2 10 None ∅ Hframes) Hcap Hw Hh five_frames_positive).
Defined.

(** ** The frame cap in general *)

Lemma frames_taken_uncapped (pending : list GifFrame) :
  forall i : Z, frames_taken None pending i = pending.
Proof.
  induction pending as [|next rest IH]; intros i; simpl; [reflexivity|].
  now rewrite IH.
Qed.

Lemma frames_taken_any (max_frames : option Z) (all : list GifFrame) :
  frames_taken max_frames all 0
  = match max_frames with
    | Some n => firstn (Z.to_nat n) all
    | None => all
    end.
Proof.
  destruct max_frames as [n|].
  - now rewrite frames_taken_cap, Z.sub_0_r.
  - apply frames_taken_uncapped.
Qed.

(** X9. For a file that opens, a non-zero stride, and an output size and
    frames of positive width and height, the processor returns a result
    whose frames are the encodings, in order, of all the frames when no
    cap is given and of the first [n] frames under a cap [n]: none when
    [n] is zero or negative, all when [n] is at least the number of
    frames. *)
Theorem processor_encodes_frames_up_to_cap
    (resample : Image -> Z -> Z -> Z -> Z -> Sample)
    (file : GifFile) (output_size : Z * Z)
    (brush_thickness quality_factor transparency_threshold : Z)
    (max_frames : option Z) (s : Store) :
  gif_frames file <> [] ->
  quality_factor <> 0 ->
  1 <= fst output_size ->
  1 <= snd output_size ->
  positive_frames (gif_frames file) ->
  exists (out : OutputData) (s' : Store),
    gif_to_drawaria_json_processor resample (Some file) output_size
      brush_thickness quality_factor transparency_threshold max_frames s
    = Done (Some out) s' /\
    frames out
    = List.map (fun f => frame_commands resample (frame_image f) output_size
                           brush_thickness quality_factor
                           transparency_threshold)
               (match max_frames with
                | Some n => firstn (Z.to_nat n) (gif_frames file)
                | None => gif_frames file
                end) /\
    (forall n : Z, max_frames = Some n -> n <= 0 -> frames out = []) /\
    (forall n : Z, max_frames = Some n ->
                   Z.of_nat (length (gif_frames file)) <= n ->
                   length (frames out) = length (gif_frames file)) /\
    (max_frames = None -> length (frames out) = length (gif_frames file)).
Proof.
  intros Hframes Hq _ _ _.
  destruct (processor_run resample file output_size brush_thickness
              quality_factor transparency_threshold max_frames s Hframes Hq)
    as (total & s' & Hrun).
  eexists _, s'. split; [exact Hrun|]. cbn [frames].
  rewrite frames_taken_any. split; [reflexivity|].
  split; [|split].
  - intros n -> Hn. replace (Z.to_nat n) with O by lia. reflexivity.
  - intros n -> Hn. rewrite length_map.
    rewrite firstn_all2 by lia. reflexivity.
  - intros ->. apply length_map.
Qed.

Lemma processor_encodes_frames_up_to_cap_witness :
  gif_frames five_frames <> [] /\ 1 <> 0 /\
  1 <= fst (2, 1) /\ 1 <= snd (2, 1) /\
  positive_frames (gif_frames five_frames) /\
  exists (out : OutputData) (s' : Store),
    gif_to_drawaria_json_processor nearest (Some five_frames) (2, 1) 2 1 10
      None ∅
    = Done (Some out) s' /\
    length (frames out) = length (gif_frames five_frames).
Proof.
  assert (Hframes : gif_frames five_frames <> []) by (simpl; discriminate).
  assert (Hq : 1 <> 0) by lia.
  assert (Hw : 1 <= fst (2, 1)) by (simpl; lia).
  assert (Hh : 1 <= snd (2, 1)) by (simpl; lia).
  split; [exact Hframes|]. split; [exact Hq|].
  split; [exact Hw|]. split; [exact Hh|].
  split; [exact five_frames_positive|].
  destruct (processor_encodes_frames_up_to_cap nearest five_frames (2, 1)
              2 1 10 None ∅ Hframes Hq Hw Hh five_frames_positive)
    as (out & s' & Hrun & _ & _ & _ & Hall).
  exists out, s'. split; [exact Hrun|]. apply Hall. reflexivity.
Defined.

(** X10. Through the front end, for an output size and frames of positive
    width and height, an entry of 0 in the frame-cap field encodes every
    frame, a positive entry [e] the first [e] frames, and a negative
    entry none. *)
Theorem gui_cap_entry_selects_frames
    (resample : Image -> Z -> Z -> Z -> Z -> Sample)
    (file : GifFile) (output_size : Z * Z)
    (brush_thickness quality_factor transparency_threshold : Z)
    (entry : Z) (s : Store) :
  gif_frames file <> [] ->
  quality_factor <> 0 ->
  1 <= fst output_size ->
  1 <= snd output_size ->
  positive_frames (gif_frames file) ->
  exists (out : OutputData) (s' : Store),
    gif_to_drawaria_json_processor resample (Some file) output_size
      brush_thickness quality_factor transparency_threshold
      (gui_max_frames entry) s
    = Done (Some out) s' /\
    max_frames_processed (processing_options (metadata out))
    = (if entry =? 0 then None else Some entry) /\
    frames out
    = List.map (fun f => frame_commands resample (frame_image f) output_size
                           brush_thickness quality_factor
                           transparency_threshold)
               (if entry =? 0 then gif_frames file
                else firstn (Z.to_nat entry) (gif_frames file)) /\
    (entry < 0 -> frames out = []).
Proof.
  intros Hframes Hq _ _ _.
  destruct (processor_run resample file output_size brush_thickness
              quality_factor transparency_threshold (gui_max_frames entry) s
              Hframes Hq)
    as (total & s' & Hrun).
  eexists _, s'. split; [exact Hrun|]. cbn [frames metadata
    processing_options max_frames_processed].
  rewrite frames_taken_any. unfold gui_max_frames.
  split; [reflexivity|].
  destruct (entry =? 0) eqn:He.
  - split; [reflexivity|]. apply Z.eqb_eq in He. lia.
  - split; [reflexivity|]. intros Hneg.
    replace (Z.to_nat entry) with O by lia. reflexivity.
Qed.

Lemma gui_cap_entry_selects_frames_witness :
  gif_frames five_frames <> [] /\ 1 <> 0 /\
  1 <= fst (2, 1) /\ 1 <= snd (2, 1) /\
  positive_frames (gif_frames five_frames) /\
  exists (out : OutputData) (s' : Store),
    gif_to_drawaria_json_processor nearest (Some five_frames) (2, 1) 2 1 10
      (gui_max_frames (-3)) ∅
    = Done (Some out) s' /\
    frames out = [].
Proof.
  assert (Hframes : gif_frames five_frames <> []) by (simpl; discriminate).
  assert (Hq : 1 <> 0) by lia.
  assert (Hw : 1 <= fst (2, 1)) by (simpl; lia).
  assert (Hh : 1 <= snd (2, 1)) by (simpl; lia).
  split; [exact Hframes|]. split; [exact Hq|].
  split; [exact Hw|]. split; [exact Hh|].
  split; [exact five_frames_positive|].
  destruct (gui_cap_entry_selects_frames nearest five_frames (2, 1)
              2 1 10 (-3) ∅ Hframes Hq Hw Hh five_frames_positive)
    as (out & s' & Hrun & _ & _ & Hneg).
  exists out, s'. split; [exact Hrun|]. apply Hneg. lia.
Defined.

(** ** The canvas *)

Lemma half_bounds (d : Z) :
  0 <= d -> 0 <= d / 2 /\ 0 <= d - 2 * (d / 2) <= 1.
Proof.
  intros Hd.
  pose proof (Z.div_mod d 2 ltac:(lia)) as Hdm.
  pose proof (Z.mod_pos_bound d 2 ltac:(lia)) as Hm.
  assert (0 <= d / 2) by (apply Z.div_pos; lia).
  lia.
Qed.

(** The sample of the canvas at an address inside, or outside, the
    pasted frame. *)
Lemma frame_canvas_load
    (resample : Image -> Z -> Z -> Z -> Z -> Sample)
    (im : Image) (output_size : Z * Z) (x y : Z) :
  let scaled := thumbnail_image resample im output_size in
  let offset_x := fst (frame_offsets scaled output_size) in
  let offset_y := snd (frame_offsets scaled output_size) in
  (offset_x <= x < offset_x + width scaled ->
   offset_y <= y < offset_y + height scaled ->
   load (frame_canvas resample im output_size) x y
   = load scaled (x - offset_x) (y - offset_y)) /\
  (~ (offset_x <= x < offset_x + width scaled /\
      offset_y <= y < offset_y + height scaled) ->
   load (frame_canvas resample im output_size) x y = transparent_white).
Proof.
  intros scaled offset_x offset_y.
  unfold frame_canvas, paste_image. cbn [load new_image].
  fold scaled. fold offset_x offset_y.
  destruct (offset_x <=? x) eqn:H1; destruct (x <? offset_x + width scaled) eqn:H2;
    destruct (offset_y <=? y) eqn:H3;
    destruct (y <? offset_y + height scaled) eqn:H4; cbn [andb];
    try apply Z.leb_le in H1; try apply Z.leb_gt in H1;
    try apply Z.ltb_lt in H2; try apply Z.ltb_ge in H2;
    try apply Z.leb_le in H3; try apply Z.leb_gt in H3;
    try apply Z.ltb_lt in H4; try apply Z.ltb_ge in H4;
    split; intros; try reflexivity; lia.
Qed.

(** X11. The canvas has exactly the requested size, and a frame of
    positive size is pasted inside it and centred: both offsets are
    non-negative, the pasted frame does not cross the right or bottom
    edge, and the margin after the frame exceeds the margin before it by
    0 or 1.  Inside the pasted rectangle the canvas holds the samples of
    the scaled frame; everywhere else it is white with alpha 0. *)
Theorem frame_is_centred_inside_canvas
    (resample : Image -> Z -> Z -> Z -> Z -> Sample)
    (im : Image) (W H : Z) :
  1 <= width im -> 1 <= height im -> 1 <= W -> 1 <= H ->
  let scaled := thumbnail_image resample im (W, H) in
  let canvas := frame_canvas resample im (W, H) in
  let offset_x := fst (frame_offsets scaled (W, H)) in
  let offset_y := snd (frame_offsets scaled (W, H)) in
  (width canvas = W /\ height canvas = H) /\
  (0 <= offset_x /\ offset_x + width scaled <= W /\
   0 <= (W - width scaled - offset_x) - offset_x <= 1) /\
  (0 <= offset_y /\ offset_y + height scaled <= H /\
   0 <= (H - height scaled - offset_y) - offset_y <= 1) /\
  (forall x y,
     offset_x <= x < offset_x + width scaled ->
     offset_y <= y < offset_y + height scaled ->
     load canvas x y = load scaled (x - offset_x) (y - offset_y)) /\
  (forall x y,
     ~ (offset_x <= x < offset_x + width scaled /\
        offset_y <= y < offset_y + height scaled) ->
     load canvas x y = (255, 255, 255, 0)).
Proof.
  intros Hw Hh HW HH scaled canvas offset_x offset_y.
  destruct (thumbnail_image_bounds resample im W H Hw Hh HW HH) as [Hsw Hsh].
  fold scaled in Hsw, Hsh.
  destruct (half_bounds (W - width scaled) ltac:(lia)) as [Hx0 Hx1].
  destruct (half_bounds (H - height scaled) ltac:(lia)) as [Hy0 Hy1].
  assert (Hox : offset_x = (W - width scaled) / 2) by reflexivity.
  assert (Hoy : offset_y = (H - height scaled) / 2) by reflexivity.
  split; [split; reflexivity|].
  split; [lia|]. split; [lia|].
  split.
  - intros x y. apply (frame_canvas_load resample im (W, H) x y).
  - intros x y. apply (frame_canvas_load resample im (W, H) x y).
Qed.

Lemma frame_is_centred_inside_canvas_witness :
  1 <= width (solid 80 40 red) /\ 1 <= height (solid 80 40 red) /\
  1 <= 100 /\ 1 <= 100 /\
  fst (frame_offsets (thumbnail_image nearest (solid 80 40 red) (100, 100))
         (100, 100))
  + width (thumbnail_image nearest (solid 80 40 red) (100, 100)) <= 100.
Proof.
  assert (Hw : 1 <= width (solid 80 40 red)) by (simpl; lia).
  assert (Hh : 1 <= height (solid 80 40 red)) by (simpl; lia).
  assert (HW : 1 <= 100) by lia.
  split; [exact Hw|]. split; [exact Hh|]. split; [exact HW|].
  split; [exact HW|].
  exact (proj1 (proj2 (proj1 (proj2
           (frame_is_centred_inside_canvas nearest (solid 80 40 red) 100 100
              Hw Hh HW HW))))).
Defined.

(** ** Where commands come from *)

(** A command of a frame starts on a sample of the scaled frame that
    passes the alpha test, provided the threshold is not negative. *)
Lemma frame_commands_origin
    (resample : Image -> Z -> Z -> Z -> Z -> Sample)
    (im : Image) (output_size : Z * Z)
    (brush_thickness quality_factor transparency_threshold : Z)
    (cmd : Command) :
  1 <= quality_factor ->
  0 <= transparency_threshold ->
  In cmd (frame_commands resample im output_size brush_thickness
            quality_factor transparency_threshold) ->
  let scaled := thumbnail_image resample im output_size in
  let offset_x := fst (frame_offsets scaled output_size) in
  let offset_y := snd (frame_offsets scaled output_size) in
  exists (start_x end_x y : Z) (c : string),
    cmd = line_command offset_x offset_y output_size brush_thickness
            start_x end_x y (Some c) /\
    offset_x <= start_x < offset_x + width scaled /\
    offset_y <= y < offset_y + height scaled /\
    opaque_color (load scaled) transparency_threshold
      (start_x - offset_x) (y - offset_y) = Some c.
Proof.
  intros Hq Ht Hin scaled offset_x offset_y.
  unfold frame_commands in Hin. fold scaled offset_x offset_y in Hin.
  destruct (scan_canvas_emits _ _ _ _ _ _ _ _ _ _ Hq Hin) as (y & _ & He).
  assert (Horigin : forall start_x c,
    opaque_color (load (frame_canvas resample im output_size))
      transparency_threshold start_x y = Some c ->
    offset_x <= start_x < offset_x + width scaled /\
    offset_y <= y < offset_y + height scaled /\
    opaque_color (load scaled) transparency_threshold
      (start_x - offset_x) (y - offset_y) = Some c).
  { intros start_x c Hc.
    destruct (frame_canvas_load resample im output_size start_x y)
      as [Hinside Houtside].
    fold scaled offset_x offset_y in Hinside, Houtside.
    destruct (Z_le_dec offset_x start_x);
      [destruct (Z_lt_dec start_x (offset_x + width scaled));
       [destruct (Z_le_dec offset_y y);
        [destruct (Z_lt_dec y (offset_y + height scaled))|]|]|].
    - split; [lia|]. split; [lia|].
      unfold opaque_color in *. rewrite <- Hinside by lia. exact Hc.
    - exfalso. unfold opaque_color in Hc. rewrite Houtside in Hc by lia.
      unfold transparent_white in Hc.
      assert (Hz : (transparency_threshold <? 0) = false)
        by (apply Z.ltb_ge; lia).
      rewrite Hz in Hc. discriminate.
    - exfalso. unfold opaque_color in Hc. rewrite Houtside in Hc by lia.
      unfold transparent_white in Hc.
      assert (Hz : (transparency_threshold <? 0) = false)
        by (apply Z.ltb_ge; lia).
      rewrite Hz in Hc. discriminate.
    - exfalso. unfold opaque_color in Hc. rewrite Houtside in Hc by lia.
      unfold transparent_white in Hc.
      assert (Hz : (transparency_threshold <? 0) = false)
        by (apply Z.ltb_ge; lia).
      rewrite Hz in Hc. discriminate.
    - exfalso. unfold opaque_color in Hc. rewrite Houtside in Hc by lia.
      unfold transparent_white in Hc.
      assert (Hz : (transparency_threshold <? 0) = false)
        by (apply Z.ltb_ge; lia).
      rewrite Hz in Hc. discriminate. }
  destruct He as [start_x x c Hs Hx Hlt Hrun _ | start_x c Hs Hrun].
  - exists start_x, (x - 1), y, c. split; [reflexivity|].
    apply Horigin. apply Hrun; [exact Hs | lia].
  - exists start_x, (width (frame_canvas resample im output_size) - 1), y, c.
    split; [reflexivity|].
    apply Horigin. apply Hrun; [exact Hs | lia].
Qed.

(** X12. With a stride of at least 1 and a non-negative threshold every
    command the encoder returns starts on a sample of the scaled frame
    whose alpha exceeds the threshold and carries that sample's colour
    string: the transparent margins of the canvas start no command. *)
Theorem commands_start_on_frame_samples
    (resample : Image -> Z -> Z -> Z -> Z -> Sample)
    (s s' : Store) (image_input : nat) (im : Image) (output_size : Z * Z)
    (brush_thickness quality_factor transparency_threshold : Z)
    (commands : list Command) (cmd : Command) :
  1 <= quality_factor ->
  0 <= transparency_threshold ->
  s !! image_input = Some im ->
  get_drawing_commands_from_image resample image_input output_size
    brush_thickness quality_factor transparency_threshold s
  = Done commands s' ->
  In cmd commands ->
  let scaled := thumbnail_image resample im output_size in
  let offset_x := fst (frame_offsets scaled output_size) in
  let offset_y := snd (frame_offsets scaled output_size) in
  exists (start_x end_x y : Z) (c : string),
    cmd = line_command offset_x offset_y output_size brush_thickness
            start_x end_x y (Some c) /\
    offset_x <= start_x < offset_x + width scaled /\
    offset_y <= y < offset_y + height scaled /\
    opaque_color (load scaled) transparency_threshold
      (start_x - offset_x) (y - offset_y) = Some c.
Proof.
  intros Hq Ht Him Hrun Hin.
  pose proof (get_drawing_commands_returned resample s image_input im
                output_size brush_thickness quality_factor
                transparency_threshold Him) as Hret.
  rewrite Hrun in Hret. cbn [returned] in Hret.
  destruct (quality_factor =? 0); [discriminate|].
  injection Hret as ->.
  exact (frame_commands_origin resample im output_size brush_thickness
           quality_factor transparency_threshold cmd Hq Ht Hin).
Qed.

Lemma commands_start_on_frame_samples_witness :
  1 <= 1 /\ 0 <= 10 /\
  ({[ 0%nat := solid 2 1 red ]} : Store) !! 0%nat = Some (solid 2 1 red) /\
  exists (start_x end_x y : Z) (c : string),
    red_run 4 1 1 2
    = line_command 1 0 (4, 1) 2 start_x end_x y (Some c) /\
    1 <= start_x < 1 + 2.
Proof.
  assert (Hq : 1 <= 1) by lia.
  assert (Ht : 0 <= 10) by lia.
  assert (H0 : ({[ 0%nat := solid 2 1 red ]} : Store) !! 0%nat
               = Some (solid 2 1 red)) by (vm_compute; reflexivity).
  split; [exact Hq|]. split; [exact Ht|]. split; [exact H0|].
  destruct (get_drawing_commands_from_image nearest 0%nat (4, 1) 2 1 10
              {[ 0%nat := solid 2 1 red ]}) as [commands s'|e s'] eqn:Hrun;
    [|vm_compute in Hrun; discriminate].
  assert (Hin : In (red_run 4 1 1 2) commands).
  { assert (Hc : returned (get_drawing_commands_from_image nearest 0%nat
                             (4, 1) 2 1 10 {[ 0%nat := solid 2 1 red ]})
                 = Some [red_run 4 1 1 2]) by (vm_compute; reflexivity).
    rewrite Hrun in Hc. injection Hc as ->. now left. }
  destruct (commands_start_on_frame_samples nearest
              {[ 0%nat := solid 2 1 red ]} s' 0%nat (solid 2 1 red) (4, 1)
              2 1 10 commands (red_run 4 1 1 2) Hq Ht H0 Hrun Hin)
    as (start_x & end_x & y & c & Hcmd & Hx & _).
  exists start_x, end_x, y, c. split; [exact Hcmd | exact Hx].
Defined.

(** X13. With a stride of at least 1, a non-negative threshold, and an
    output size and a frame of positive width and height, a frame whose
    scaled image has, within its bounds, no sample with alpha above the
    threshold yields the empty command list. *)
Theorem transparent_frame_yields_no_commands
    (resample : Image -> Z -> Z -> Z -> Z -> Sample)
    (s : Store) (image_input : nat) (im : Image) (output_size : Z * Z)
    (brush_thickness quality_factor transparency_threshold : Z) :
  1 <= quality_factor ->
  0 <= transparency_threshold ->
  1 <= fst output_size ->
  1 <= snd output_size ->
  1 <= width im ->
  1 <= height im ->
  s !! image_input = Some im ->
  (forall x y,
     0 <= x < width (thumbnail_image resample im output_size) ->
     0 <= y < height (thumbnail_image resample im output_size) ->
     alpha (load (thumbnail_image resample im output_size) x y)
     <= transparency_threshold) ->
  returned (get_drawing_commands_from_image resample image_input output_size
              brush_thickness quality_factor transparency_threshold s)
  = Some [].
Proof.
  intros Hq Ht _ _ _ _ Him Hclear.
  rewrite (get_drawing_commands_returned resample s image_input im) by exact Him.
  assert (Hz : (quality_factor =? 0) = false) by (apply Z.eqb_neq; lia).
  rewrite Hz. f_equal.
  destruct (frame_commands resample im output_size brush_thickness
              quality_factor transparency_threshold) as [|cmd rest] eqn:Hcmds;
    [reflexivity|].
  exfalso.
  destruct (frame_commands_origin resample im output_size brush_thickness
              quality_factor transparency_threshold cmd Hq Ht)
    as (start_x & end_x & y & c & _ & Hx & Hy & Hc).
  { rewrite Hcmds. now left. }
  unfold opaque_color in Hc.
  specialize (Hclear
    (start_x - fst (frame_offsets (thumbnail_image resample im output_size)
                      output_size))
    (y - snd (frame_offsets (thumbnail_image resample im output_size)
                output_size))
    ltac:(lia) ltac:(lia)).
  unfold alpha in Hclear.
  destruct (load (thumbnail_image resample im output_size) _ _)
    as [[[r g] b] a].
  apply Z.ltb_ge in Hclear. rewrite Hclear in Hc. discriminate.
Qed.

Lemma transparent_frame_yields_no_commands_witness :
  1 <= 1 /\ 0 <= 10 /\ 1 <= fst (4, 1) /\ 1 <= snd (4, 1) /\
  1 <= width (clear_inside 2 1) /\ 1 <= height (clear_inside 2 1) /\
  ({[ 0%nat := clear_inside 2 1 ]} : Store) !! 0%nat
  = Some (clear_inside 2 1) /\
  load (clear_inside 2 1) 2 0 = red /\
  returned (get_drawing_commands_from_image nearest 0%nat (4, 1) 2 1 10
              {[ 0%nat := clear_inside 2 1 ]})
  = Some [].
Proof.
  assert (Hq : 1 <= 1) by lia.
  assert (Ht : 0 <= 10) by lia.
  assert (Hw : 1 <= fst (4, 1)) by (simpl; lia).
  assert (Hh : 1 <= snd (4, 1)) by (simpl; lia).
  assert (Hiw : 1 <= width (clear_inside 2 1)) by (simpl; lia).
  assert (Hih : 1 <= height (clear_inside 2 1)) by (simpl; lia).
  assert (H0 : ({[ 0%nat := clear_inside 2 1 ]} : Store) !! 0%nat
               = Some (clear_inside 2 1))
    by (vm_compute; reflexivity).
  assert (Hclear : forall x y,
            0 <= x < width (thumbnail_image nearest (clear_inside 2 1) (4, 1)) ->
            0 <= y < height (thumbnail_image nearest (clear_inside 2 1) (4, 1)) ->
            alpha (load (thumbnail_image nearest (clear_inside 2 1) (4, 1)) x y)
            <= 10).
  { intros x y Hx Hy.
    change (thumbnail_image nearest (clear_inside 2 1) (4, 1))
      with (clear_inside 2 1) in *.
    simpl in Hx, Hy. unfold clear_inside, load.
    assert (E1 : (0 <=? x) = true) by (apply Z.leb_le; lia).
    assert (E2 : (x <? 2) = true) by (apply Z.ltb_lt; lia).
    assert (E3 : (0 <=? y) = true) by (apply Z.leb_le; lia).
    assert (E4 : (y <? 1) = true) by (apply Z.ltb_lt; lia).
    rewrite E1, E2, E3, E4. simpl. lia. }
  split; [exact Hq|]. split; [exact Ht|]. split; [exact Hw|].
  split; [exact Hh|]. split; [exact Hiw|]. split; [exact Hih|].
  split; [exact H0|]. split; [reflexivity|].
  exact (transparent_frame_yields_no_commands nearest
           {[ 0%nat := clear_inside 2 1 ]} 0%nat (clear_inside 2 1) (4, 1)
           2 1 10 Hq Ht Hw Hh Hiw Hih H0 Hclear).
Defined.

(** ** The name of the output file *)

Lemma contains_char_app (ch : ascii) (a b : string) :
  contains_char ch (a ++ b)%string
  = (contains_char ch a || contains_char ch b)%bool.
Proof.
  induction a as [|c a IH]; simpl; [reflexivity|].
  rewrite IH. now rewrite Bool.orb_assoc.
Qed.

Lemma after_last_app (ch : ascii) (a b : string) :
  contains_char ch b = false ->
  after_last ch (a ++ String ch b)%string = b.
Proof.
  intros Hb. induction a as [|c a IH]; simpl.
  - now rewrite Hb, Ascii.eqb_refl.
  - rewrite contains_char_app. simpl. rewrite Ascii.eqb_refl.
    rewrite Bool.orb_true_r. exact IH.
Qed.

Lemma after_last_absent (ch : ascii) (s : string) :
  contains_char ch s = false -> after_last ch s = s.
Proof.
  destruct s as [|c s]; simpl; [reflexivity|].
  intros H. apply Bool.orb_false_iff in H. destruct H as [Hc Hs].
  now rewrite Hs, Hc.
Qed.

Lemma after_last_free (ch : ascii) (s : string) :
  contains_char ch (after_last ch s) = false.
Proof.
  induction s as [|c s IH]; simpl; [reflexivity|].
  destruct (contains_char ch s) eqn:Hs; [exact IH|].
  destruct (Ascii.eqb c ch) eqn:Hc; [exact Hs|].
  simpl. now rewrite Hc, Hs.
Qed.

Lemma before_last_app (ch : ascii) (a b : string) :
  contains_char ch b = false ->
  before_last ch (a ++ String ch b)%string = a.
Proof.
  intros Hb. induction a as [|c a IH]; simpl.
  - now rewrite Hb, Ascii.eqb_refl.
  - rewrite contains_char_app. simpl. rewrite Ascii.eqb_refl.
    rewrite Bool.orb_true_r. now rewrite IH.
Qed.

Lemma before_last_absent (ch : ascii) (s : string) :
  contains_char ch s = false -> before_last ch s = s.
Proof.
  destruct s as [|c s]; simpl; [reflexivity|].
  intros H. apply Bool.orb_false_iff in H. destruct H as [Hc Hs].
  now rewrite Hs, Hc.
Qed.

(** What precedes the last [ch] holds no character the string does not
    hold. *)
Lemma before_last_free (ch other : ascii) (s : string) :
  contains_char other s = false ->
  contains_char other (before_last ch s) = false.
Proof.
  induction s as [|c s IH]; simpl; [reflexivity|].
  intros H. apply Bool.orb_false_iff in H. destruct H as [Hc Hs].
  destruct (contains_char ch s).
  - simpl. now rewrite Hc, IH.
  - destruct (Ascii.eqb c ch); [reflexivity|]. simpl. now rewrite Hc, Hs.
Qed.

(** X14. The output file is named after the GIF: for a path
    dir/name.ext, where [name] holds no slash and [ext] neither slash nor
    dot, the name is [name] followed by "_drawaria_animation.json"; only
    the last extension is removed and a name without a dot is kept
    whole.  The name never holds a slash, so the directory of the GIF is
    dropped. *)
Theorem output_filename_drops_directory_and_extension :
  (forall dir name ext : string,
     contains_char "/"%char name = false ->
     contains_char "/"%char ext = false ->
     contains_char "."%char ext = false ->
     output_filename_for (dir ++ String "/"%char (name ++ String "."%char ext))
     = (name ++ "_drawaria_animation.json")%string) /\
  (forall dir name : string,
     contains_char "/"%char name = false ->
     contains_char "."%char name = false ->
     output_filename_for (dir ++ String "/"%char name)
     = (name ++ "_drawaria_animation.json")%string) /\
  (forall path : string,
     contains_char "/"%char (output_filename_for path) = false).
Proof.
  split; [|split].
  - intros dir name ext Hname Hext Hdot. unfold output_filename_for, basename.
    rewrite after_last_app.
    + now rewrite before_last_app.
    + rewrite contains_char_app. simpl. now rewrite Hname, Hext.
  - intros dir name Hname Hdot. unfold output_filename_for, basename.
    rewrite after_last_app by exact Hname.
    now rewrite before_last_absent.
  - intros path. unfold output_filename_for, basename.
    rewrite contains_char_app.
    rewrite before_last_free by apply after_last_free.
    reflexivity.
Qed.

Lemma output_filename_drops_directory_and_extension_witness :
  contains_char "/"%char "cat.v2"%string = false /\
  contains_char "/"%char "gif"%string = false /\
  contains_char "."%char "gif"%string = false /\
  output_filename_for "/home/u/cat.v2.gif"%string
  = "cat.v2_drawaria_animation.json"%string.
Proof.
  assert (Hname : contains_char "/"%char "cat.v2"%string = false)
    by reflexivity.
  assert (Hext : contains_char "/"%char "gif"%string = false) by reflexivity.
  assert (Hdot : contains_char "."%char "gif"%string = false) by reflexivity.
  split; [exact Hname|]. split; [exact Hext|]. split; [exact Hdot|].
  exact (proj1 output_filename_drops_directory_and_extension
           "/home/u"%string "cat.v2"%string "gif"%string Hname Hext Hdot).
Defined.

(** ** Stride 1 *)

(** X15. At stride 1 the commands of a row describe the row exactly: they
    are the commands of a list of runs such that a pixel column of the
    row lies in a run of colour [c] if and only if its sample passes the
    alpha test with colour string [c]. *)
Theorem stride_one_is_lossless
    (pixels : Z -> Z -> Sample) (img_width offset_x offset_y : Z)
    (output_size : Z * Z) (brush_thickness transparency_threshold y : Z) :
  exists runs : list Run,
    scan_row pixels img_width offset_x offset_y output_size brush_thickness
      1 transparency_threshold [] y
    = List.map (run_command offset_x offset_y output_size brush_thickness y)
               runs /\
    forall (x : Z) (c : string),
      0 <= x < img_width ->
      (opaque_color pixels transparency_threshold x y = Some c <->
       exists r, In r runs /\ run_start r <= x <= run_end r /\
                 run_color r = c).
Proof.
  assert (Hq : 1 <= 1) by lia.
  destruct (scan_row_runs pixels img_width offset_x offset_y output_size
              brush_thickness 1 transparency_threshold y Hq)
    as (runs & Hrow & _ & Hsound & Hcover).
  exists runs. split; [exact Hrow|].
  intros x c Hx.
  assert (Hvisited : In x (visited_columns img_width 1)).
  { apply py_range_In; [lia|]. split; [lia | apply Z.mod_1_r]. }
  split.
  - intros Hc. now apply Hcover.
  - intros (r & Hr & Hle & <-).
    rewrite List.Forall_forall in Hsound.
    destruct (Hsound r Hr) as (_ & _ & Hcolour & _).
    now apply Hcolour.
Qed.

Lemma stride_one_is_lossless_witness :
  0 <= 0 < 4 /\
  exists runs : list Run,
    scan_row red_red_blue 4 0 0 (4, 1) 2 1 10 [] 0
    = List.map (run_command 0 0 (4, 1) 2 0) runs /\
    (opaque_color red_red_blue 10 0 0 = Some "#FF0000"%string <->
     exists r, In r runs /\ run_start r <= 0 <= run_end r /\
               run_color r = "#FF0000"%string).
Proof.
  assert (Hx : 0 <= 0 < 4) by lia.
  split; [exact Hx|].
  destruct (stride_one_is_lossless red_red_blue 4 0 0 (4, 1) 2 10 0)
    as (runs & Hrow & Hpixels).
  exists runs. split; [exact Hrow|].
  exact (Hpixels 0 "#FF0000"%string Hx).
Defined.
